(** * pycalib.plotting: the calibration statistics behind the plots

    A shallow embedding of the numeric core of [pycalib/plotting.py]:
    the arrays that [reliability_diagram], [confidence_diagram],
    [over_underconfidence_curve], [confidence_trajectories] and
    [logsumexp_illustration] compute before they hand them to matplotlib.
    The drawing calls themselves (texfig, pyplot) and the annotations taken
    from [pycalib.scoring] are outside the embedding.

    Numbers.  A finite float is an exact rational ([Q], compared with [==]);
    rounding is not modelled.  An array in which numpy can produce a
    non-finite entry is a list of [float64], which adds [NaN] and the two
    infinities, so that a division by zero yields what numpy yields.  The
    smooth maximum of [logsumexp_illustration] needs [exp] and [log] and is
    stated over the real numbers.  A Python exception is a [Raise] in the
    [result] monad. *)

From Stdlib Require Import List Bool Arith ZArith QArith Qminmax Qabs.
From Stdlib Require Import Lia Lqa Sorted Morphisms.
From Stdlib Require Import Reals Lra.
Import ListNotations.

(** ** Python exceptions *)

Inductive exception : Set :=
| ValueError
| ZeroDivisionError
| IndexError.

Inductive result (A : Type) : Type :=
| Ok (a : A)
| Raise (e : exception).

Arguments Ok {A} a.
Arguments Raise {A} e.

Definition bind {A B : Type} (m : result A) (k : A -> result B) : result B :=
  match m with
  | Ok a => k a
  | Raise e => Raise e
  end.

Notation "x <- m ;; k" := (bind m (fun x => k))
  (at level 61, m at next level, right associativity).

Fixpoint mapM {A B : Type} (f : A -> result B) (l : list A) : result (list B) :=
  match l with
  | [] => Ok []
  | a :: r => b <- f a ;; bs <- mapM f r ;; Ok (b :: bs)
  end.

(** Python's [a / b] on Python numbers: a zero divisor raises. *)
Definition truediv (a b : Q) : result Q :=
  if Qeq_bool b 0 then Raise ZeroDivisionError else Ok (a / b)%Q.

(** ** numpy

    numpy and scipy are libraries: each routine below is the documented
    behaviour of the routine of the same name, on the kind of argument the
    plotting functions pass to it. *)

(** What a float64 array entry can be once a division has taken place. *)
Inductive float64 : Set :=
| Fin (q : Q)
| PInf
| NInf
| NaN.

Definition isnan (x : float64) : bool :=
  match x with NaN => true | _ => false end.

Definition Qlt_bool (a b : Q) : bool := negb (Qle_bool b a).

Module np.

Local Open Scope Q_scope.

(** [np.linspace(start, stop, num)], endpoint included: [num] samples,
    the last one set to [stop] itself. *)
Definition linspace (start stop : Q) (num : nat) : list Q :=
  match num with
  | O => []
  | S O => [start]
  | S div =>
      let step := (stop - start) / inject_Z (Z.of_nat div) in
      map (fun i => start + inject_Z (Z.of_nat i) * step) (seq 0 div) ++ [stop]
  end.

(** [np.arange(1, n + 1)] *)
Definition arange1 (n : nat) : list Q :=
  map (fun i => inject_Z (Z.of_nat i)) (seq 1 n).

(** Elementwise float division [a / b] of finite operands: numpy warns and
    goes on, [0 / 0] is [nan] and [x / 0] an infinity. *)
Definition true_divide (a b : Q) : float64 :=
  if Qeq_bool b 0 then
    if Qeq_bool a 0 then NaN
    else if Qlt_bool 0 a then PInf else NInf
  else Fin (a / b).

Definition sum (l : list Q) : Q := fold_left Qplus l 0.

Fixpoint cumsum_from (acc : Q) (l : list Q) : list Q :=
  match l with
  | [] => []
  | x :: r => (acc + x) :: cumsum_from (acc + x) r
  end.

Definition cumsum (l : list Q) : list Q := cumsum_from 0 l.

(** Scan of [np.argmax] and [np.max]: the running best and its index; an
    entry replaces the best only when it is strictly greater, so the first
    occurrence of the maximum wins. *)
Fixpoint argmax_from (best : Q) (besti i : nat) (l : list Q) : nat :=
  match l with
  | [] => besti
  | x :: r =>
      if Qlt_bool best x then argmax_from x i (S i) r
      else argmax_from best besti (S i) r
  end.

Definition argmax (l : list Q) : result nat :=
  match l with
  | [] => Raise ValueError
  | x :: r => Ok (argmax_from x 0%nat 1%nat r)
  end.

Fixpoint max_from (best : Q) (l : list Q) : Q :=
  match l with
  | [] => best
  | x :: r => if Qlt_bool best x then max_from x r else max_from best r
  end.

Definition max (l : list Q) : result Q :=
  match l with
  | [] => Raise ValueError
  | x :: r => Ok (max_from x r)
  end.

Fixpoint min_from (best : Q) (l : list Q) : Q :=
  match l with
  | [] => best
  | x :: r => if Qlt_bool x best then min_from x r else min_from best r
  end.

Definition min (l : list Q) : result Q :=
  match l with
  | [] => Raise ValueError
  | x :: r => Ok (min_from x r)
  end.

(** [np.argmax(p, axis=1)] and [np.max(p, axis=1)]: one result per row. *)
Definition argmax_rows (p : list (list Q)) : result (list nat) := mapM argmax p.
Definition max_rows (p : list (list Q)) : result (list Q) := mapM max p.

(** [np.sort] on floats, by insertion. *)
Fixpoint insert (x : Q) (l : list Q) : list Q :=
  match l with
  | [] => [x]
  | h :: t => if Qle_bool x h then x :: l else h :: insert x t
  end.

Definition sort (l : list Q) : list Q := fold_right insert [] l.

(** [np.unique] on labels: the sorted distinct values. *)
Fixpoint insert_unique (x : Z) (l : list Z) : list Z :=
  match l with
  | [] => [x]
  | h :: t =>
      if (x <? h)%Z then x :: l
      else if (x =? h)%Z then l
      else h :: insert_unique x t
  end.

Definition unique (l : list Z) : list Z := fold_right insert_unique [] l.

(** Elementwise comparison with numpy's broadcasting of a length-one
    operand; any other length mismatch raises. *)
Definition broadcast2 {A : Type} (f : Z -> Z -> A) (a b : list Z)
  : result (list A) :=
  if (length a =? length b)%nat then Ok (map (fun ab => f (fst ab) (snd ab)) (combine a b))
  else if (length a =? 1)%nat then Ok (map (f (hd 0%Z a)) b)
  else if (length b =? 1)%nat then Ok (map (fun x => f x (hd 0%Z b)) a)
  else Raise ValueError.

Definition equal : list Z -> list Z -> result (list bool) := broadcast2 Z.eqb.
Definition not_equal : list Z -> list Z -> result (list bool) :=
  broadcast2 (fun x y => negb (Z.eqb x y)).

Definition invert (m : list bool) : list bool := map negb m.

(** [a[mask]] with a boolean mask: the mask has the array's length. *)
Definition mask_select {A : Type} (a : list A) (m : list bool) : result (list A) :=
  if (length a =? length m)%nat
  then Ok (map fst (filter snd (combine a m)))
  else Raise IndexError.

(** [a[idx]] with a list of indices. *)
Definition take {A : Type} (a : list A) (idx : list nat) : result (list A) :=
  mapM (fun i => match nth_error a i with
                 | Some v => Ok v
                 | None => Raise IndexError
                 end) idx.

(** [np.diff] on counts. *)
Fixpoint diff (l : list Z) : list Z :=
  match l with
  | a :: ((b :: _) as r) => (b - a)%Z :: diff r
  | _ => []
  end.

Fixpoint monotone (l : list Q) : bool :=
  match l with
  | a :: ((b :: _) as r) => Qle_bool a b && monotone r
  | _ => true
  end.

Definition count_lt (a : list Q) (v : Q) : Z :=
  Z.of_nat (length (filter (fun x => Qlt_bool x v) a)).
Definition count_le (a : list Q) (v : Q) : Z :=
  Z.of_nat (length (filter (fun x => Qle_bool x v) a)).

(** [_search_sorted_inclusive]: for every edge but the last the number of
    samples strictly below it, for the last edge the number of samples not
    above it, which closes the last bin on the right. *)
Fixpoint search_sorted_inclusive (a : list Q) (edges : list Q) : list Z :=
  match edges with
  | [] => []
  | [v] => [count_le a v]
  | v :: r => count_lt a v :: search_sorted_inclusive a r
  end.

(** [np.histogram(a, bins=edges)[0]] with explicit edges: the counts are
    the differences of the cumulative counts at the edges. *)
Definition histogram (a : list Q) (edges : list Q) : result (list Z) :=
  if monotone edges then Ok (diff (search_sorted_inclusive a edges))
  else Raise ValueError.

(** [np.digitize(x, edges)] for increasing edges: the number of edges that
    are not above [x]. *)
Definition digitize (x : Q) (edges : list Q) : nat :=
  length (filter (fun e => Qle_bool e x) edges).

(** [counts / total] with an integer array and an integer scalar. *)
Definition divide_counts (counts : list Z) (total : Z) : list float64 :=
  map (fun c => true_divide (inject_Z c) (inject_Z total)) counts.

Fixpoint cumsumZ_from (acc : Z) (l : list Z) : list Z :=
  match l with
  | [] => []
  | x :: r => (acc + x)%Z :: cumsumZ_from (acc + x)%Z r
  end.

Definition cumsumZ (l : list Z) : list Z := cumsumZ_from 0 l.
Definition sumZ (l : list Z) : Z := fold_left Z.add l 0%Z.

End np.

(** ** scipy.stats.binned_statistic

    The library routine behind the empirical accuracy, with the default
    statistic (the mean), an integer bin count and an explicit range.  Its
    rounding of samples next to the last edge is the identity on exact
    numbers, so a sample is moved into the last bin when it equals the last
    edge. *)

Module scipy_stats.

Local Open Scope Q_scope.

Fixpoint dedges (edges : list Q) : list Q :=
  match edges with
  | a :: ((b :: _) as r) => (b - a) :: dedges r
  | _ => []
  end.

(** [_bin_edges]: a reversed range is refused, an empty one is widened by
    one half on each side, and [bins + 1] edges are laid over it. *)
Definition bin_edges (bins : nat) (range : Q * Q) : result (list Q) :=
  let (lo, hi) := range in
  if Qlt_bool hi lo then Raise ValueError
  else
    let (smin, smax) :=
      if Qeq_bool lo hi then (lo - (1 # 2), hi + (1 # 2)) else (lo, hi) in
    Ok (np.linspace smin smax (bins + 1)).

(** [_bin_numbers]: bin 0 lies below the first edge, bin [bins + 1] beyond
    the last one. *)
Definition bin_number (edges : list Q) (x : Q) : nat :=
  let b := np.digitize x edges in
  if Qeq_bool x (last edges 0) then (b - 1)%nat else b.

Definition bin_values (binnumbers : list nat) (values : list Q) (b : nat) : list Q :=
  map snd (filter (fun bv => (fst bv =? b)%nat) (combine binnumbers values)).

(** The mean of the values of one bin; [nan] where the bin is empty. *)
Definition bin_mean (binnumbers : list nat) (values : list Q) (b : nat) : float64 :=
  let vs := bin_values binnumbers values b in
  if (length vs =? 0)%nat then NaN
  else Fin (np.sum vs / inject_Z (Z.of_nat (length vs))).

Definition binned_statistic (x values : list Q) (bins : nat) (range : Q * Q)
  : result (list float64) :=
  if negb (length x =? length values)%nat then Raise ValueError
  else
    edges <- bin_edges bins range ;;
    dedges_min <- np.min (dedges edges) ;;
    if Qeq_bool dedges_min 0 then Raise ValueError
    else
      let binnumbers := map (bin_number edges) x in
      Ok (map (bin_mean binnumbers values) (seq 1 bins)).

End scipy_stats.

(** ** pycalib.plotting *)

Local Open Scope Q_scope.

Definition astype_int (m : list bool) : list Q :=
  map (fun b : bool => if b then 1 else 0) m.

(** [len(np.unique(y))] *)
Definition n_classes_of (y : list Z) : nat := length (np.unique y).

Definition of_nat (n : nat) : Q := inject_Z (Z.of_nat n).

(** [acc[np.isnan(acc)] = bin_means[np.isnan(acc)]] *)
Definition fill_nan (acc : list float64) (bin_means : list Q) : list float64 :=
  map (fun am => if isnan (fst am) then Fin (snd am) else fst am)
      (combine acc bin_means).

(** *** reliability_diagram *)

Record reliability : Type := {
  rd_xlim : Q * Q;
  rd_y_pred : list nat;
  rd_p_max : list Q;
  rd_bins : list Q;
  rd_bin_means : list Q;
  rd_empirical_acc : list float64;
  rd_hist : list Z;
  rd_hist_fraction : list float64
}.

Definition reliability_diagram (y : list Z) (p_pred : list (list Q))
    (n_bins : nat) (xlim : option (Q * Q)) : result reliability :=
  xlim <- match xlim with
          | Some l => Ok l
          | None =>
              let n_classes := n_classes_of y in
              lo <- truediv 1 (of_nat n_classes) ;; Ok (lo, 1)
          end ;;
  y_pred <- np.argmax_rows p_pred ;;
  p_max <- np.max_rows p_pred ;;
  let bins := np.linspace (fst xlim) (snd xlim) (n_bins + 1) in
  half <- truediv (snd xlim) (of_nat (2 * n_bins)) ;;
  let bin_means := np.linspace (fst xlim + half) (snd xlim - half) n_bins in
  correct <- np.equal (map Z.of_nat y_pred) y ;;
  acc <- scipy_stats.binned_statistic p_max (astype_int correct) n_bins xlim ;;
  let empirical_acc := fill_nan acc bin_means in
  hist <- np.histogram p_max bins ;;
  Ok {| rd_xlim := xlim;
        rd_y_pred := y_pred;
        rd_p_max := p_max;
        rd_bins := bins;
        rd_bin_means := bin_means;
        rd_empirical_acc := empirical_acc;
        rd_hist := hist;
        rd_hist_fraction := np.divide_counts hist (np.sumZ hist) |}.

(** *** confidence_diagram *)

Record confidence : Type := {
  cd_n_classes : nat;
  cd_floor : Q;
  cd_bins : list Q;
  cd_hist_false : list Z;
  cd_hist_correct : list Z
}.

Definition confidence_diagram (y y_pred : list Z) (p_pred : list (list Q))
    (n_classes : option nat) (n_bins : nat) : result confidence :=
  let n_classes := match n_classes with
                   | Some n => n
                   | None => n_classes_of y
                   end in
  p_max <- np.max_rows p_pred ;;
  let bins := np.linspace 0 1 (n_bins + 1) in
  wrong <- np.not_equal y y_pred ;;
  conf_false <- np.mask_select p_max wrong ;;
  floor <- truediv 1 (of_nat n_classes) ;;
  hist_false <- np.histogram conf_false bins ;;
  right <- np.equal y y_pred ;;
  conf_correct <- np.mask_select p_max right ;;
  hist_correct <- np.histogram conf_correct bins ;;
  Ok {| cd_n_classes := n_classes;
        cd_floor := floor;
        cd_bins := bins;
        cd_hist_false := hist_false;
        cd_hist_correct := hist_correct |}.

(** *** over_underconfidence_curve *)

Record over_under : Type := {
  ou_bins : list Q;
  ou_conf_false : list Q;
  ou_conf_correct : list Q;
  ou_conf_false_cum : list float64;
  ou_conf_correct_cum : list float64
}.

Definition cumulative_fraction (hist : list Z) : list float64 :=
  np.divide_counts (np.cumsumZ hist) (np.sumZ hist).

Definition over_underconfidence_curve (y y_pred : list Z) (p_pred : list (list Q))
    (n_bins : nat) : result over_under :=
  pred_correct <- np.equal y y_pred ;;
  p_max <- np.max_rows p_pred ;;
  conf_correct <- np.mask_select p_max pred_correct ;;
  conf_false <- np.mask_select p_max (np.invert pred_correct) ;;
  let bins := np.linspace 0 1 n_bins in
  conf_false_hist <- np.histogram conf_false bins ;;
  let conf_false_cum := cumulative_fraction conf_false_hist in
  conf_correct_hist <- np.histogram conf_correct bins ;;
  let conf_correct_cum := cumulative_fraction conf_correct_hist in
  Ok {| ou_bins := bins;
        ou_conf_false := conf_false;
        ou_conf_correct := conf_correct;
        ou_conf_false_cum := conf_false_cum;
        ou_conf_correct_cum := conf_correct_cum |}.

(** *** confidence_trajectories

    The accuracy and the inverse odds are used by the calibration corridor
    only, which is drawn from [pycalib.scoring]; they are left out. *)

Definition index_of_max_element_below_thresh (elements : list Q) (threshold : Q)
  : result nat :=
  m <- np.min elements ;;
  if Qlt_bool threshold m then Ok 0%nat
  else np.argmax (filter (fun e => Qle_bool e threshold) elements).

(** [cummean = lambda x: x.cumsum() / np.arange(1, len(x) + 1)] *)
Definition cummean (x : list Q) : list float64 :=
  map (fun sn => np.true_divide (fst sn) (snd sn))
      (combine (np.cumsum x) (np.arange1 (length x))).

Record trajectories : Type := {
  ct_n_classes : nat;
  ct_conf_correct : list Q;
  ct_conf_false : list Q;
  ct_conf_thresholds : list Q;
  ct_max_els_conf_correct : list nat;
  ct_max_els_conf_false : list nat;
  ct_avg_conf_correct : list float64;
  ct_avg_conf_false : list float64
}.

Definition confidence_trajectories (y y_pred : list Z) (p_pred : list (list Q))
    (n_classes : option nat) (n_thresh_steps : nat) : result trajectories :=
  let n_classes := match n_classes with
                   | Some n => n
                   | None => n_classes_of y
                   end in
  pred_correct <- np.equal y y_pred ;;
  p_max <- np.max_rows p_pred ;;
  sel_correct <- np.mask_select p_max pred_correct ;;
  let conf_correct := np.sort sel_correct in
  sel_false <- np.mask_select p_max (np.invert pred_correct) ;;
  let conf_false := np.sort sel_false in
  floor <- truediv 1 (of_nat n_classes) ;;
  let conf_thresholds := np.linspace floor 1 n_thresh_steps in
  max_els_conf_correct <-
    mapM (index_of_max_element_below_thresh conf_correct) conf_thresholds ;;
  max_els_conf_false <-
    mapM (index_of_max_element_below_thresh conf_false) conf_thresholds ;;
  avg_conf_correct <- np.take (cummean conf_correct) max_els_conf_correct ;;
  avg_conf_false <- np.take (cummean conf_false) max_els_conf_false ;;
  Ok {| ct_n_classes := n_classes;
        ct_conf_correct := conf_correct;
        ct_conf_false := conf_false;
        ct_conf_thresholds := conf_thresholds;
        ct_max_els_conf_correct := max_els_conf_correct;
        ct_max_els_conf_false := max_els_conf_false;
        ct_avg_conf_correct := avg_conf_correct;
        ct_avg_conf_false := avg_conf_false |}.

(** *** logsumexp_illustration *)

(** [logsumexp(x, N) = 1 / N * np.log(np.sum(np.exp(N * x), axis=1))], one
    value per row of [x]. *)
Definition logsumexp (x : list (list R)) (N : R) : list R :=
  map (fun row => (1 / N * ln (fold_right Rplus 0 (map (fun v => exp (N * v)) row)))%R) x.

(** The row that [np.column_stack([1 - t1, t1])] holds for the abscissa [t]. *)
Definition column_stack_row (t : R) : list R := [(1 - t)%R; t].

(** ** Vocabulary of the statements *)

(** A list is increasing when later entries are strictly larger. *)
Definition increasing (l : list Q) : Prop :=
  forall i j, (i < j < length l)%nat -> nth i l 0 < nth j l 0.

(** The [k]-th edge and the [i]-th midpoint of the equal-width partition of
    [[lo, hi]] into [n] bins. *)
Definition bin_edge (lo hi : Q) (n k : nat) : Q :=
  lo + of_nat k * (hi - lo) / of_nat n.

Definition bin_midpoint (lo hi : Q) (n i : nat) : Q :=
  lo + (of_nat i + (1 # 2)) * (hi - lo) / of_nat n.

(** Membership in the [i]-th bin: half-open, the last bin closed. *)
Definition in_bin (lo hi : Q) (n i : nat) (x : Q) : bool :=
  Qle_bool (bin_edge lo hi n i) x &&
  (Qlt_bool x (bin_edge lo hi n (S i)) || ((S i =? n)%nat && Qeq_bool x hi)).

(** A sample is a probability row with its true label; its predicted label
    is the argmax of the row, its confidence the maximum of the row. *)
Definition row_label (row : list Q) : Z :=
  match np.argmax row with Ok k => Z.of_nat k | Raise _ => 0%Z end.

Definition row_confidence (row : list Q) : Q :=
  match np.max row with Ok m => m | Raise _ => 0 end.

Definition hit (s : list Q * Z) : Q :=
  if (row_label (fst s) =? snd s)%Z then 1 else 0.

Definition bin_samples (lo hi : Q) (n i : nat) (p_pred : list (list Q)) (y : list Z)
  : list (list Q * Z) :=
  filter (fun s => in_bin lo hi n i (row_confidence (fst s))) (combine p_pred y).


(** The arithmetic mean of a non-empty list. *)
Definition mean_of (l : list Q) : Q := np.sum l / of_nat (length l).

(** A threshold below every confidence: the helper returns index 0 and the
    trajectory value is the smallest confidence. *)
Definition starts_at_smallest (conf : list Q) (t : Q)
    (idx : option nat) (avg : option float64) : Prop :=
  forall c, np.min conf = Ok c -> t < c ->
    idx = Some 0%nat /\ exists q, avg = Some (Fin q) /\ q == c.

(** The running mean as the claim has it: the mean of all confidences that
    are not above the threshold. *)
Definition mean_of_all_below (conf : list Q) (t : Q) (avg : option float64) : Prop :=
  (exists c, In c conf /\ c <= t) ->
  exists q, avg = Some (Fin q) /\
            q == mean_of (filter (fun e => Qle_bool e t) conf).

(** The running mean as the code has it: with [m] the largest confidence
    not above the threshold, the mean of the confidences strictly below [m]
    and of one copy of [m]; this is the mean of all confidences not above
    the threshold when [m] occurs once. *)
Definition mean_up_to_first_largest (conf : list Q) (t : Q) (avg : option float64)
  : Prop :=
  (exists c, In c conf /\ c <= t) ->
  exists m q,
    np.max (filter (fun e => Qle_bool e t) conf) = Ok m /\
    avg = Some (Fin q) /\
    q == mean_of (filter (fun e => Qlt_bool e m) conf ++ [m]) /\
    (length (filter (fun e => Qeq_bool e m) conf) = 1%nat ->
     q == mean_of (filter (fun e => Qle_bool e t) conf)).

(** The smooth maximum that [logsumexp_illustration] plots at abscissa [t]
    for the sharpness [N]. *)
Definition smooth_max (t N : R) : R := hd 0%R (logsumexp [column_stack_row t] N).

(** *** The shaded area of reliability_diagram

    [x = np.linspace(xlim[0], xlim[1], 1000)] and
    [bin_ind = np.digitize(x, bins)[1:-1] - 1], the positions at which the
    per-bin arrays are read for [fill_between]. *)

(** [l[1:-1]] *)
Definition inner {A : Type} (l : list A) : list A := removelast (tl l).

Definition fill_between_x (xlim : Q * Q) : list Q :=
  np.linspace (fst xlim) (snd xlim) 1000.

Definition fill_between_bin_ind (xlim : Q * Q) (n_bins : nat) : list Z :=
  let bins := np.linspace (fst xlim) (snd xlim) (n_bins + 1) in
  map (fun d => (Z.of_nat d - 1)%Z)
      (inner (map (fun v => np.digitize v bins) (fill_between_x xlim))).

(** A trajectory value within the confidences it averages, and not above
    the threshold once a confidence is not above it. *)
Definition within_confidences (conf : list Q) (t : Q) (avg : option float64) : Prop :=
  forall v, avg = Some v ->
    exists q lo hi,
      v = Fin q /\ np.min conf = Ok lo /\ np.max conf = Ok hi /\
      lo <= q <= hi /\
      ((exists c, In c conf /\ c <= t) -> q <= t).


(** Finite values that never decrease along the list. *)
Definition nondecreasing_values (l : list float64) : Prop :=
  forall i j a b, (i <= j)%nat ->
    nth_error l i = Some (Fin a) -> nth_error l j = Some (Fin b) -> a <= b.

(** * Properties *)

(** ** The result monad *)

Lemma bind_Ok {A B : Type} (m : result A) (k : A -> result B) (b : B) :
  bind m k = Ok b -> exists a, m = Ok a /\ k a = Ok b.
Proof.
  destruct m as [a|e]; simpl; intros H; [exists a; auto | discriminate].
Qed.

Ltac inv_bind H :=
  let a := fresh "v" in
  let Ha := fresh "E" in
  apply bind_Ok in H; destruct H as (a & Ha & H).

Lemma mapM_Ok_map {A B : Type} (f : A -> result B) (d : B) (l : list A) (l' : list B) :
  mapM f l = Ok l' ->
  l' = map (fun a => match f a with Ok b => b | Raise _ => d end) l.
Proof.
  revert l'; induction l as [|a r IH]; simpl; intros l' H.
  - now inversion H.
  - inv_bind H. inv_bind H. inversion H; subst.
    rewrite E. f_equal. now apply IH.
Qed.

Lemma mapM_Ok_Forall2 {A B : Type} (f : A -> result B) (l : list A) (l' : list B) :
  mapM f l = Ok l' -> Forall2 (fun a b => f a = Ok b) l l'.
Proof.
  revert l'; induction l as [|a r IH]; simpl; intros l' H.
  - inversion H; constructor.
  - inv_bind H. inv_bind H. inversion H; subst. constructor; auto.
Qed.

Lemma mapM_Ok_length {A B : Type} (f : A -> result B) (l : list A) (l' : list B) :
  mapM f l = Ok l' -> length l' = length l.
Proof.
  intros H. apply mapM_Ok_Forall2 in H.
  symmetry. eapply Forall2_length; eauto.
Qed.

Lemma mapM_Ok_nth {A B : Type} (f : A -> result B) (l : list A) (l' : list B) :
  mapM f l = Ok l' ->
  forall i a, nth_error l i = Some a ->
         exists b, nth_error l' i = Some b /\ f a = Ok b.
Proof.
  intros H. apply mapM_Ok_Forall2 in H.
  induction H as [|a b l l' Hab _ IH]; intros i x Hi.
  - destruct i; discriminate.
  - destruct i as [|i]; simpl in *.
    + inversion Hi; subst. eauto.
    + eauto.
Qed.

Lemma mapM_total {A B : Type} (f : A -> result B) (l : list A) :
  Forall (fun a => exists b, f a = Ok b) l -> exists l', mapM f l = Ok l'.
Proof.
  induction 1 as [|a r [b Hb] _ [bs Hbs]]; simpl.
  - eauto.
  - rewrite Hb, Hbs. simpl. eauto.
Qed.

(** ** Rationals and their boolean comparisons *)

Lemma Qlt_bool_iff (a b : Q) : Qlt_bool a b = true <-> a < b.
Proof.
  unfold Qlt_bool. rewrite negb_true_iff.
  split; intros H.
  - apply Qnot_le_lt. intros Hle. apply Qle_bool_iff in Hle. congruence.
  - destruct (Qle_bool b a) eqn:E; auto.
    apply Qle_bool_iff in E. exfalso. eapply Qlt_not_le; eauto.
Qed.

Lemma Qlt_bool_false_iff (a b : Q) : Qlt_bool a b = false <-> b <= a.
Proof.
  unfold Qlt_bool. rewrite negb_false_iff. apply Qle_bool_iff.
Qed.

Lemma Qle_bool_false_iff (a b : Q) : Qle_bool a b = false <-> b < a.
Proof.
  rewrite <- Qlt_bool_iff. unfold Qlt_bool.
  destruct (Qle_bool a b); simpl; intuition congruence.
Qed.

Lemma Qeq_bool_false_iff (a b : Q) : Qeq_bool a b = false <-> ~ a == b.
Proof.
  rewrite <- Qeq_bool_iff. destruct (Qeq_bool a b); intuition congruence.
Qed.

Lemma of_nat_lt (i j : nat) : (i < j)%nat -> of_nat i < of_nat j.
Proof.
  intros H. unfold of_nat. rewrite <- Zlt_Qlt. lia.
Qed.

Lemma of_nat_pos (n : nat) : (0 < n)%nat -> 0 < of_nat n.
Proof.
  intros H. change 0 with (of_nat 0). now apply of_nat_lt.
Qed.

Lemma of_nat_S_nonzero (n : nat) : ~ of_nat (S n) == 0.
Proof.
  intros H. pose proof (of_nat_pos (S n) (Nat.lt_0_succ n)) as P.
  rewrite H in P. now apply Qlt_irrefl in P.
Qed.

(** ** np.linspace *)

Lemma linspace_length (a b : Q) (n : nat) : length (np.linspace a b n) = n.
Proof.
  destruct n as [|[|d]]; simpl; auto.
  rewrite length_app, length_map, length_seq. simpl. lia.
Qed.

(** The closed form of the samples: [a + i * (b - a) / (n - 1)]. *)
Lemma linspace_nth (a b : Q) (d i : nat) :
  (i <= S d)%nat ->
  nth i (np.linspace a b (S (S d))) 0 == a + of_nat i * (b - a) / of_nat (S d).
Proof.
  intros Hi. unfold np.linspace. cbv zeta.
  assert (Hnz := of_nat_S_nonzero d). fold (of_nat (S d)) in *.
  destruct (Nat.eq_dec i (S d)) as [->|Hne].
  - rewrite app_nth2; rewrite length_map, length_seq; [|lia].
    rewrite Nat.sub_diag. simpl nth. field. exact Hnz.
  - rewrite app_nth1; [|rewrite length_map, length_seq; lia].
    set (f := fun k : nat => a + inject_Z (Z.of_nat k) * ((b - a) / of_nat (S d))).
    rewrite nth_indep with (d' := f 0%nat);
      [|rewrite length_map, length_seq; lia].
    rewrite (map_nth f), seq_nth by lia. simpl plus.
    unfold f. fold (of_nat i). field. exact Hnz.
Qed.

Lemma linspace_increasing (a b : Q) (n : nat) :
  a < b -> increasing (np.linspace a b n).
Proof.
  intros Hab i j Hij. rewrite linspace_length in Hij.
  destruct n as [|[|d]]; [lia | lia |].
  rewrite !linspace_nth by lia.
  assert (Hd : 0 < of_nat (S d)) by (apply of_nat_pos; lia).
  assert (Hlt : of_nat i < of_nat j) by (apply of_nat_lt; lia).
  apply Qplus_lt_r. unfold Qdiv.
  apply Qmult_lt_compat_r; [now apply Qinv_lt_0_compat|].
  apply Qmult_lt_compat_r; [|exact Hlt].
  unfold Qminus. rewrite <- Qlt_minus_iff. exact Hab.
Qed.

Lemma increasing_cons_inv (x : Q) (l : list Q) :
  increasing (x :: l) -> increasing l /\ Forall (fun e => x < e) l.
Proof.
  intros H. split.
  - intros i j Hij. apply (H (S i) (S j)). simpl. lia.
  - apply Forall_forall. intros e He.
    destruct (In_nth _ _ 0 He) as (k & Hk & <-).
    apply (H 0%nat (S k)). simpl. lia.
Qed.

(** ** What a successful call has computed *)

Lemma reliability_diagram_Ok y p_pred n_bins xlim r :
  reliability_diagram y p_pred n_bins xlim = Ok r ->
  exists lim y_pred p_max half correct acc hist,
    match xlim with
    | Some l => Ok l
    | None => lo <- truediv 1 (of_nat (n_classes_of y)) ;; Ok (lo, 1)
    end = Ok lim /\
    np.argmax_rows p_pred = Ok y_pred /\
    np.max_rows p_pred = Ok p_max /\
    truediv (snd lim) (of_nat (2 * n_bins)) = Ok half /\
    np.equal (map Z.of_nat y_pred) y = Ok correct /\
    scipy_stats.binned_statistic p_max (astype_int correct) n_bins lim = Ok acc /\
    np.histogram p_max (np.linspace (fst lim) (snd lim) (n_bins + 1)) = Ok hist /\
    r = {| rd_xlim := lim;
           rd_y_pred := y_pred;
           rd_p_max := p_max;
           rd_bins := np.linspace (fst lim) (snd lim) (n_bins + 1);
           rd_bin_means := np.linspace (fst lim + half) (snd lim - half) n_bins;
           rd_empirical_acc :=
             fill_nan acc (np.linspace (fst lim + half) (snd lim - half) n_bins);
           rd_hist := hist;
           rd_hist_fraction := np.divide_counts hist (np.sumZ hist) |}.
Proof.
  unfold reliability_diagram. intros H.
  inv_bind H. inv_bind H. inv_bind H. inv_bind H. inv_bind H. inv_bind H. inv_bind H.
  inversion H; subst.
  do 7 eexists. repeat split; eauto.
Qed.

Lemma confidence_diagram_Ok y y_pred p_pred n_classes n_bins r :
  confidence_diagram y y_pred p_pred n_classes n_bins = Ok r ->
  let n := match n_classes with Some n => n | None => n_classes_of y end in
  exists floor,
    truediv 1 (of_nat n) = Ok floor /\
    cd_n_classes r = n /\
    cd_floor r = floor /\
    cd_bins r = np.linspace 0 1 (n_bins + 1).
Proof.
  intros H n. unfold confidence_diagram in H. fold n in H.
  inv_bind H. inv_bind H. inv_bind H. inv_bind H. inv_bind H. inv_bind H.
  inv_bind H. inv_bind H.
  inversion H; subst. simpl. eauto.
Qed.

Lemma over_underconfidence_curve_Ok y y_pred p_pred n_bins r :
  over_underconfidence_curve y y_pred p_pred n_bins = Ok r ->
  exists pred_correct p_max conf_false_hist conf_correct_hist,
    np.equal y y_pred = Ok pred_correct /\
    np.max_rows p_pred = Ok p_max /\
    np.mask_select p_max pred_correct = Ok (ou_conf_correct r) /\
    np.mask_select p_max (np.invert pred_correct) = Ok (ou_conf_false r) /\
    ou_bins r = np.linspace 0 1 n_bins /\
    np.histogram (ou_conf_false r) (np.linspace 0 1 n_bins) = Ok conf_false_hist /\
    np.histogram (ou_conf_correct r) (np.linspace 0 1 n_bins) = Ok conf_correct_hist /\
    ou_conf_false_cum r = cumulative_fraction conf_false_hist /\
    ou_conf_correct_cum r = cumulative_fraction conf_correct_hist.
Proof.
  unfold over_underconfidence_curve. intros H.
  inv_bind H. inv_bind H. inv_bind H. inv_bind H. inv_bind H. inv_bind H.
  inversion H; subst. simpl.
  do 4 eexists. repeat split; eauto.
Qed.

Lemma confidence_trajectories_Ok y y_pred p_pred n_classes n_thresh_steps r :
  confidence_trajectories y y_pred p_pred n_classes n_thresh_steps = Ok r ->
  let n := match n_classes with Some n => n | None => n_classes_of y end in
  exists pred_correct p_max sel_correct sel_false floor,
    np.equal y y_pred = Ok pred_correct /\
    np.max_rows p_pred = Ok p_max /\
    np.mask_select p_max pred_correct = Ok sel_correct /\
    np.mask_select p_max (np.invert pred_correct) = Ok sel_false /\
    ct_conf_correct r = np.sort sel_correct /\
    ct_conf_false r = np.sort sel_false /\
    truediv 1 (of_nat n) = Ok floor /\
    ct_n_classes r = n /\
    ct_conf_thresholds r = np.linspace floor 1 n_thresh_steps /\
    mapM (index_of_max_element_below_thresh (ct_conf_correct r)) (ct_conf_thresholds r)
      = Ok (ct_max_els_conf_correct r) /\
    mapM (index_of_max_element_below_thresh (ct_conf_false r)) (ct_conf_thresholds r)
      = Ok (ct_max_els_conf_false r) /\
    np.take (cummean (ct_conf_correct r)) (ct_max_els_conf_correct r)
      = Ok (ct_avg_conf_correct r) /\
    np.take (cummean (ct_conf_false r)) (ct_max_els_conf_false r)
      = Ok (ct_avg_conf_false r).
Proof.
  intros H n. unfold confidence_trajectories in H. fold n in H.
  inv_bind H. inv_bind H. inv_bind H. inv_bind H. inv_bind H. inv_bind H.
  inv_bind H. inv_bind H. inv_bind H.
  inversion H; subst. simpl.
  do 5 eexists. repeat split; eauto.
Qed.

(** ** Bin edges *)

(** The edges of [reliability_diagram] and of [confidence_diagram] are
    [n_bins + 1] increasing numbers. *)
Lemma reliability_diagram_bins y p_pred n_bins xlim r :
  reliability_diagram y p_pred n_bins xlim = Ok r ->
  fst (rd_xlim r) < snd (rd_xlim r) ->
  length (rd_bins r) = S n_bins /\ increasing (rd_bins r).
Proof.
  intros H. apply reliability_diagram_Ok in H.
  destruct H as (lim & y_pred & p_max & half & correct & acc & hist & _ & _ & _ & _ & _ & _ & _ & ->).
  cbn [rd_xlim rd_bins]. intros Hlt.
  split; [rewrite linspace_length; lia | now apply linspace_increasing].
Qed.

Lemma confidence_diagram_bins y y_pred p_pred n_classes n_bins r :
  confidence_diagram y y_pred p_pred n_classes n_bins = Ok r ->
  length (cd_bins r) = S n_bins /\ increasing (cd_bins r).
Proof.
  intros H. apply confidence_diagram_Ok in H.
  destruct H as (floor & _ & _ & _ & ->).
  split; [rewrite linspace_length; lia | now apply linspace_increasing].
Qed.

(** [over_underconfidence_curve] passes [n_bins] itself to [np.linspace]:
    its edges are increasing, but there are [n_bins] of them, hence
    [n_bins - 1] bins. *)
Lemma over_underconfidence_curve_bins y y_pred p_pred n_bins r :
  over_underconfidence_curve y y_pred p_pred n_bins = Ok r ->
  length (ou_bins r) = n_bins /\ increasing (ou_bins r).
Proof.
  intros H. apply over_underconfidence_curve_Ok in H.
  destruct H as (pc & pm & fh & ch & _ & _ & _ & _ & -> & _).
  split; [apply linspace_length | now apply linspace_increasing].
Qed.

(** C3 (the code departs from the claim).  With [n_bins = 2] the two
    diagrams build three increasing edges, as the claim says, while
    [over_underconfidence_curve] builds two edges only, that is a single
    bin where its docstring promises [n_bins] of them. *)
Example bin_edges_at_two_bins :
  let y := [0; 1]%Z in
  let y_pred := [0; 0]%Z in
  let p_pred := [[9 # 10; 1 # 10]; [8 # 10; 2 # 10]] in
  (exists r, reliability_diagram y p_pred 2 None = Ok r /\
             length (rd_bins r) = 3%nat /\ increasing (rd_bins r)) /\
  (exists r, confidence_diagram y y_pred p_pred None 2 = Ok r /\
             length (cd_bins r) = 3%nat /\ increasing (cd_bins r)) /\
  (exists r, over_underconfidence_curve y y_pred p_pred 2 = Ok r /\
             length (ou_bins r) = 2%nat /\ length (ou_bins r) <> 3%nat /\
             length (ou_conf_false_cum r) = 1%nat).
Proof.
  intros y y_pred p_pred. repeat split.
  - destruct (reliability_diagram y p_pred 2 None) as [r|e] eqn:E;
      [|vm_compute in E; discriminate].
    exists r. split; [reflexivity|].
    apply (reliability_diagram_bins _ _ _ _ _ E).
    vm_compute in E. inversion E. reflexivity.
  - destruct (confidence_diagram y y_pred p_pred None 2) as [r|e] eqn:E;
      [|vm_compute in E; discriminate].
    exists r. split; [reflexivity|].
    now apply confidence_diagram_bins in E.
  - destruct (over_underconfidence_curve y y_pred p_pred 2) as [r|e] eqn:E;
      [|vm_compute in E; discriminate].
    exists r. split; [reflexivity|].
    pose proof (over_underconfidence_curve_bins _ _ _ _ _ E) as [Hl _].
    rewrite Hl. repeat split; [discriminate|].
    vm_compute in E. inversion E. reflexivity.
Qed.

(** ** Midpoints: what [bin_means] holds *)

Lemma bin_means_nth (lo hi : Q) (d i : nat) (half : Q) :
  (i <= S d)%nat ->
  half == hi / of_nat (2 * S (S d)) ->
  nth i (np.linspace (lo + half) (hi - half) (S (S d))) 0
  == lo + hi / of_nat (2 * S (S d))
     + of_nat i * (hi - lo - hi / of_nat (S (S d))) / of_nat (S d).
Proof.
  intros Hi Hh. rewrite linspace_nth by exact Hi. rewrite Hh.
  assert (H1 := of_nat_S_nonzero d).
  assert (H2 := of_nat_S_nonzero (S d)).
  assert (H3 : of_nat (2 * S (S d)) == 2 * of_nat (S (S d))).
  { unfold of_nat. rewrite Nat2Z.inj_mul, inject_Z_mult. reflexivity. }
  rewrite H3. field. split; assumption.
Qed.

(** The entries of [bin_means] are off the midpoints by a multiple of the
    lower limit: they are the midpoints when the range starts at 0, and
    only the middle bin of an odd partition is right otherwise. *)
Lemma bin_means_offset (lo hi : Q) (d i : nat) (half : Q) :
  (i <= S d)%nat ->
  half == hi / of_nat (2 * S (S d)) ->
  nth i (np.linspace (lo + half) (hi - half) (S (S d))) 0
  - bin_midpoint lo hi (S (S d)) i
  == lo * (of_nat (S d) - 2 * of_nat i) / (2 * of_nat (S (S d)) * of_nat (S d)).
Proof.
  intros Hi Hh. rewrite bin_means_nth by assumption. unfold bin_midpoint.
  assert (H1 := of_nat_S_nonzero d).
  assert (H2 := of_nat_S_nonzero (S d)).
  assert (H3 : of_nat (2 * S (S d)) == 2 * of_nat (S (S d))).
  { unfold of_nat. rewrite Nat2Z.inj_mul, inject_Z_mult. reflexivity. }
  assert (H4 : of_nat (S (S d)) == of_nat (S d) + 1).
  { unfold of_nat. rewrite (Nat2Z.inj_succ (S d)), <- Z.add_1_r, inject_Z_plus. reflexivity. }
  rewrite H3, H4. rewrite H4 in H2. field. split; assumption.
Qed.

(** From a range that starts at 0 the entries of [bin_means] are the
    midpoints. *)
Lemma bin_means_midpoint_from_zero (hi : Q) (d i : nat) (half : Q) :
  (i <= S d)%nat ->
  half == hi / of_nat (2 * S (S d)) ->
  nth i (np.linspace (0 + half) (hi - half) (S (S d))) 0
  == bin_midpoint 0 hi (S (S d)) i.
Proof.
  intros Hi Hh.
  pose proof (bin_means_offset 0 hi d i half Hi Hh) as H.
  assert (H1 := of_nat_S_nonzero d).
  assert (H2 := of_nat_S_nonzero (S d)).
  setoid_replace (0 * (of_nat (S d) - 2 * of_nat i) / (2 * of_nat (S (S d)) * of_nat (S d)))
    with 0 in H by (field; split; assumption).
  apply Qplus_inj_r with (z := - bin_midpoint 0 hi (S (S d)) i).
  rewrite Qplus_opp_r. exact H.
Qed.

(** C2 (the code departs from the claim).  Two classes, hence the default
    range [[1/2, 1]], and two bins: both samples fall in the upper bin, the
    lower bin is empty, and the value put in its place is 3/4, the common
    edge of the two bins, where the midpoint of the lower bin is 5/8. *)
Example empty_bin_substitute_at_default_xlim :
  let y := [0; 1]%Z in
  let p_pred := [[1 # 10; 9 # 10]; [2 # 10; 8 # 10]] in
  exists r q,
    reliability_diagram y p_pred 2 None = Ok r /\
    rd_xlim r = (1 # 2, 1) /\
    rd_hist r = [0; 2]%Z /\
    bin_samples (1 # 2) 1 2 0 p_pred y = [] /\
    nth_error (rd_empirical_acc r) 0 = Some (Fin q) /\
    q == 3 # 4 /\
    bin_midpoint (1 # 2) 1 2 0 == 5 # 8 /\
    ~ q == bin_midpoint (1 # 2) 1 2 0.
Proof.
  intros y p_pred.
  destruct (reliability_diagram y p_pred 2 None) as [r|e] eqn:E;
    [|vm_compute in E; discriminate].
  vm_compute in E. inversion E as [Hr]. clear E.
  eexists. eexists. split; [reflexivity|].
  repeat split; try reflexivity.
  intros H. vm_compute in H. discriminate.
Qed.

(** ** np.digitize and the bin numbers of binned_statistic *)

Lemma digitize_cons (x a : Q) (l : list Q) :
  np.digitize x (a :: l)
  = if Qle_bool a x then S (np.digitize x l) else np.digitize x l.
Proof.
  unfold np.digitize. simpl. now destruct (Qle_bool a x).
Qed.

Lemma digitize_above (x : Q) (l : list Q) :
  Forall (fun e => x < e) l -> np.digitize x l = 0%nat.
Proof.
  induction 1 as [|e l He _ IH]; [reflexivity|].
  rewrite digitize_cons, IH.
  apply Qle_bool_false_iff in He. now rewrite He.
Qed.

Lemma digitize_le_length (x : Q) (l : list Q) : (np.digitize x l <= length l)%nat.
Proof. unfold np.digitize. apply filter_length_le. Qed.

(** On increasing edges the [k]-th edge is not above [x] exactly when
    [np.digitize] returns more than [k]. *)
Lemma digitize_index (x : Q) (l : list Q) :
  increasing l ->
  forall k, (k < length l)%nat -> (nth k l 0 <= x <-> (k < np.digitize x l)%nat).
Proof.
  induction l as [|a l IH]; intros Hinc k Hk; [simpl in Hk; lia|].
  apply increasing_cons_inv in Hinc. destruct Hinc as [Hinc Ha].
  rewrite digitize_cons.
  destruct (Qle_bool a x) eqn:E.
  - apply Qle_bool_iff in E. destruct k as [|k]; simpl.
    + split; [lia | auto].
    + simpl in Hk. rewrite IH by (auto; lia). lia.
  - apply Qle_bool_false_iff in E.
    assert (Hall : Forall (fun e => x < e) l).
    { eapply Forall_impl; [|exact Ha]. simpl. intros e He. now apply Qlt_trans with a. }
    rewrite digitize_above by exact Hall.
    split; [|lia]. intros Hle. exfalso.
    destruct k as [|k]; simpl in Hle.
    + eapply Qlt_not_le; eauto.
    + simpl in Hk.
      assert (Hin : In (nth k l 0) l) by (apply nth_In; lia).
      rewrite Forall_forall in Hall. specialize (Hall _ Hin).
      eapply Qlt_not_le; eauto.
Qed.

Lemma linspace_last (a b : Q) (d : nat) : last (np.linspace a b (S (S d))) 0 = b.
Proof. unfold np.linspace. cbv zeta. apply last_last. Qed.

Lemma linspace_edge (lo hi : Q) (n k : nat) :
  (1 <= n)%nat -> (k <= n)%nat ->
  nth k (np.linspace lo hi (S n)) 0 == bin_edge lo hi n k.
Proof.
  intros Hn Hk. destruct n as [|d]; [lia|].
  rewrite linspace_nth by lia. reflexivity.
Qed.

Lemma bin_edge_last (lo hi : Q) (n : nat) :
  (1 <= n)%nat -> bin_edge lo hi n n == hi.
Proof.
  intros Hn. unfold bin_edge. destruct n as [|d]; [lia|].
  field. apply of_nat_S_nonzero.
Qed.


(** The bin number that [binned_statistic] gives a sample is [i + 1]
    exactly for the samples of the [i]-th bin of the partition. *)
Lemma bin_number_in_bin (lo hi : Q) (n i : nat) (x : Q) :
  lo < hi -> (i < n)%nat ->
  (scipy_stats.bin_number (np.linspace lo hi (S n)) x =? S i)%nat
  = in_bin lo hi n i x.
Proof.
  intros Hlt Hi.
  assert (Hn : (1 <= n)%nat) by lia.
  set (edges := np.linspace lo hi (S n)).
  assert (Hinc : increasing edges) by now apply linspace_increasing.
  assert (Hlen : length edges = S n) by apply linspace_length.
  assert (Hidx : forall k, (k <= n)%nat ->
                      (bin_edge lo hi n k <= x <-> (k < np.digitize x edges)%nat)).
  { intros k Hk. rewrite <- (digitize_index x edges Hinc k) by lia.
    unfold edges. now rewrite linspace_edge by lia. }
  assert (Hlast : last edges 0 = hi).
  { unfold edges. destruct n as [|d]; [lia|]. apply linspace_last. }
  unfold scipy_stats.bin_number, in_bin. fold edges. rewrite Hlast.
  apply eq_true_iff_eq.
  rewrite Nat.eqb_eq, andb_true_iff, orb_true_iff, andb_true_iff.
  rewrite Qle_bool_iff, Qlt_bool_iff, Nat.eqb_eq.
  pose proof (digitize_le_length x edges) as Hle. rewrite Hlen in Hle.
  destruct (Qeq_bool x hi) eqn:E.
  - apply Qeq_bool_iff in E.
    assert (Hd : np.digitize x edges = S n).
    { assert (n < np.digitize x edges)%nat; [|lia].
      apply Hidx; [lia|]. rewrite bin_edge_last by lia. rewrite E. apply Qle_refl. }
    rewrite Hd. split.
    + intros Heq. assert (S i = n) by lia. split.
      * apply Hidx; lia.
      * right. auto.
    + intros [_ [Hlt' | [Heq _]]]; [|lia].
      exfalso. apply (Qlt_not_le _ _ Hlt').
      apply Hidx; lia.
  - split.
    + intros Heq. split; [apply Hidx; lia|].
      left. apply Qnot_le_lt. intros Hc. apply Hidx in Hc; lia.
    + intros [H1 [H2 | [_ H2]]]; [|discriminate].
      apply Hidx in H1; [|lia].
      assert (~ (S i < np.digitize x edges)%nat); [|lia].
      intros Hc. apply Hidx in Hc; [|lia]. eapply Qlt_not_le; eauto.
Qed.

Lemma min_from_In (best : Q) (l : list Q) : In (np.min_from best l) (best :: l).
Proof.
  revert best; induction l as [|x r IH]; intros best; simpl; [auto|].
  destruct (Qlt_bool x best); specialize (IH x) as IHx; specialize (IH best);
    simpl in *; intuition.
Qed.

Lemma dedges_positive (l : list Q) :
  increasing l -> Forall (fun d => 0 < d) (scipy_stats.dedges l).
Proof.
  induction l as [|a l IH]; intros Hinc; [constructor|].
  pose proof (increasing_cons_inv _ _ Hinc) as [Hinc' Ha].
  destruct l as [|b r]; [constructor|].
  change (scipy_stats.dedges (a :: b :: r))
    with ((b - a) :: scipy_stats.dedges (b :: r)).
  constructor; [|auto].
  inversion Ha; subst. unfold Qminus. now rewrite <- Qlt_minus_iff.
Qed.

(** On a proper range and with at least one bin, [binned_statistic]
    returns, and returns the per-bin means of the numbered samples. *)
Lemma binned_statistic_Ok (x values : list Q) (n : nat) (lo hi : Q) :
  lo < hi -> (1 <= n)%nat -> length x = length values ->
  scipy_stats.binned_statistic x values n (lo, hi)
  = Ok (map (scipy_stats.bin_mean
               (map (scipy_stats.bin_number (np.linspace lo hi (S n))) x) values)
            (seq 1 n)).
Proof.
  intros Hlt Hn Hlen. unfold scipy_stats.binned_statistic, scipy_stats.bin_edges.
  rewrite Hlen, Nat.eqb_refl. simpl negb. cbv iota.
  assert (E1 : Qlt_bool hi lo = false) by (apply Qlt_bool_false_iff; now apply Qlt_le_weak).
  assert (E2 : Qeq_bool lo hi = false).
  { apply Qeq_bool_false_iff. intros H. rewrite H in Hlt. now apply Qlt_irrefl in Hlt. }
  rewrite E1, E2. rewrite Nat.add_1_r. cbn [bind].
  assert (Hinc : increasing (np.linspace lo hi (S n))) by now apply linspace_increasing.
  pose proof (dedges_positive _ Hinc) as Hpos.
  pose proof (linspace_length lo hi (S n)) as Hl.
  destruct (np.linspace lo hi (S n)) as [|a [|b r]]; simpl in Hl; try lia.
  change (scipy_stats.dedges (a :: b :: r))
    with ((b - a) :: scipy_stats.dedges (b :: r)) in *.
  set (ds := scipy_stats.dedges (b :: r)) in *.
  cbn [np.min bind]. pose proof (min_from_In (b - a) ds) as Hin.
  rewrite Forall_forall in Hpos. specialize (Hpos _ Hin).
  assert (E3 : Qeq_bool (np.min_from (b - a) ds) 0 = false).
  { apply Qeq_bool_false_iff. intros H. rewrite H in Hpos. now apply Qlt_irrefl in Hpos. }
    now rewrite E3.
Qed.

(** ** np.argmax and np.max *)

(** The scan splits what it has read around the first largest entry:
    strictly smaller entries before it, no larger entry after it. *)
Lemma argmax_from_split (l A0 B0 : list Q) (best : Q) :
  Forall (fun x => x < best) A0 ->
  Forall (fun x => x <= best) B0 ->
  exists A B,
    A0 ++ best :: B0 ++ l = A ++ np.max_from best l :: B /\
    length A = np.argmax_from best (length A0) (length (A0 ++ best :: B0)) l /\
    Forall (fun x => x < np.max_from best l) A /\
    Forall (fun x => x <= np.max_from best l) B.
Proof.
  revert A0 B0 best. induction l as [|x r IH]; intros A0 B0 best HA HB.
  - exists A0, B0. simpl. rewrite app_nil_r. auto.
  - simpl. destruct (Qlt_bool best x) eqn:E.
    + apply Qlt_bool_iff in E.
      destruct (IH (A0 ++ best :: B0) [] x) as (A & B & Heq & Hlen & HA' & HB').
      * apply Forall_app. split.
        -- eapply Forall_impl; [|exact HA]. simpl. intros a Ha. now apply Qlt_trans with best.
        -- constructor; [exact E|].
           eapply Forall_impl; [|exact HB]. simpl. intros a Ha. now apply Qle_lt_trans with best.
      * constructor.
      * exists A, B. repeat split; auto.
        -- rewrite <- Heq. simpl. rewrite <- app_assoc. reflexivity.
        -- rewrite Hlen. f_equal. rewrite (length_app _ [x]). simpl. lia.
    + apply Qlt_bool_false_iff in E.
      destruct (IH A0 (B0 ++ [x]) best) as (A & B & Heq & Hlen & HA' & HB').
      * exact HA.
      * apply Forall_app. split; [exact HB | constructor; auto].
      * exists A, B. repeat split; auto.
        -- rewrite <- Heq. rewrite <- app_assoc. reflexivity.
        -- rewrite Hlen. f_equal. rewrite !length_app. simpl. rewrite length_app. simpl. lia.
Qed.

Lemma argmax_split (l : list Q) (k : nat) (m : Q) :
  np.argmax l = Ok k -> np.max l = Ok m ->
  exists A B, l = A ++ m :: B /\ length A = k /\
              Forall (fun x => x < m) A /\ Forall (fun x => x <= m) B.
Proof.
  destruct l as [|x r]; simpl; intros Hk Hm; [discriminate|].
  inversion Hk; inversion Hm; subst.
  destruct (argmax_from_split r [] [] x) as (A & B & Heq & Hlen & HA & HB);
    [constructor | constructor |].
  exists A, B. repeat split; auto.
Qed.

Lemma argmax_max_total (l : list Q) :
  l <> [] -> exists k m, np.argmax l = Ok k /\ np.max l = Ok m.
Proof.
  destruct l as [|x r]; [congruence|]. intros _. simpl. eauto.
Qed.

Lemma argmax_Ok_max (l : list Q) (k : nat) :
  np.argmax l = Ok k -> exists m, np.max l = Ok m.
Proof.
  destruct l; simpl; [discriminate | eauto].
Qed.




(** ** Empirical accuracy per bin *)

Lemma equal_same_length (a b : list Z) :
  length a = length b ->
  np.equal a b = Ok (map (fun ab => (fst ab =? snd ab)%Z) (combine a b)).
Proof.
  intros H. unfold np.equal, np.broadcast2. now rewrite H, Nat.eqb_refl.
Qed.

Lemma equal_Ok_length (a b : list Z) (m : list bool) :
  length a = length b -> np.equal a b = Ok m -> length m = length a.
Proof.
  intros H E. rewrite equal_same_length in E by exact H.
  inversion E. rewrite length_map, length_combine. lia.
Qed.

(** The values that [binned_statistic] averages in bin number [b] are the
    hit indicators of the samples whose confidence has that bin number. *)
Lemma bin_values_samples (bn : Q -> nat) (b : nat) (p : list (list Q)) (y : list Z) :
  length p = length y ->
  scipy_stats.bin_values
    (map bn (map row_confidence p))
    (astype_int
       (map (fun ab => (fst ab =? snd ab)%Z)
            (combine
               (map Z.of_nat
                    (map (fun row => match np.argmax row with
                                     | Ok k => k
                                     | Raise _ => 0%nat
                                     end) p))
               y)))
    b
  = map hit (filter (fun s => (bn (row_confidence (fst s)) =? b)%nat) (combine p y)).
Proof.
  unfold scipy_stats.bin_values, astype_int.
  revert y; induction p as [|row p IH]; intros [|l y] Hlen; simpl in Hlen; try lia;
    [reflexivity|].
  simpl. specialize (IH y ltac:(lia)).
  assert (Hhit : (if (Z.of_nat match np.argmax row with
                                | Ok k => k
                                | Raise _ => 0%nat
                                end =? l)%Z then 1 else 0) = hit (row, l)).
  { unfold hit, row_label. simpl. now destruct (np.argmax row). }
  destruct (bn (row_confidence row) =? b)%nat; simpl; rewrite IH; [|reflexivity].
  now rewrite Hhit.
Qed.

Lemma fill_nan_nth (acc : list float64) (bin_means : list Q) (i : nat) a m :
  nth_error acc i = Some a -> nth_error bin_means i = Some m ->
  nth_error (fill_nan acc bin_means) i = Some (if isnan a then Fin m else a).
Proof.
  unfold fill_nan.
  revert bin_means i; induction acc as [|a0 acc IH]; intros [|m0 bm] [|i] Ha Hm;
    simpl in *; try discriminate.
  - now inversion Ha; inversion Hm; subst.
  - now apply IH.
Qed.

Lemma bin_edge_first (lo hi : Q) (n : nat) :
  (1 <= n)%nat -> bin_edge lo hi n 0 == lo.
Proof.
  intros Hn. unfold bin_edge. destruct n as [|d]; [lia|].
  change (of_nat 0) with 0. field. apply of_nat_S_nonzero.
Qed.



(** The entry of [binned_statistic] for the [i]-th bin, before the empty
    bins are filled in. *)
Lemma binned_accuracy_nth (p : list (list Q)) (y : list Z) (n i : nat) (lo hi : Q) acc :
  length p = length y -> lo < hi -> (i < n)%nat ->
  scipy_stats.binned_statistic
    (map row_confidence p)
    (astype_int
       (map (fun ab => (fst ab =? snd ab)%Z)
            (combine
               (map Z.of_nat
                    (map (fun row => match np.argmax row with
                                     | Ok k => k
                                     | Raise _ => 0%nat
                                     end) p))
               y)))
    n (lo, hi) = Ok acc ->
  nth_error acc i
  = Some (let hits := map hit (bin_samples lo hi n i p y) in
          if (length hits =? 0)%nat then NaN
          else Fin (np.sum hits / inject_Z (Z.of_nat (length hits)))).
Proof.
  intros Hlen Hlt Hi H.
  rewrite binned_statistic_Ok in H; auto; [|lia|].
  2:{ unfold astype_int. rewrite !length_map, length_combine, !length_map. lia. }
  injection H as <-.
  rewrite nth_error_map, nth_error_seq.
  assert (E : (i <? n)%nat = true) by (apply Nat.ltb_lt; exact Hi).
  rewrite E. cbn [option_map]. f_equal.
  unfold scipy_stats.bin_mean. rewrite bin_values_samples by exact Hlen.
  unfold bin_samples. cbv zeta.
  rewrite (filter_ext _ (fun s => in_bin lo hi n i (row_confidence (fst s)))).
  - reflexivity.
  - intros s. now apply bin_number_in_bin.
Qed.

Lemma increasing_monotone (l : list Q) : increasing l -> np.monotone l = true.
Proof.
  induction l as [|a [|b r] IH]; intros Hinc; [reflexivity | reflexivity |].
  pose proof (increasing_cons_inv _ _ Hinc) as [Hinc' Ha].
  change (np.monotone (a :: b :: r)) with (Qle_bool a b && np.monotone (b :: r)).
  rewrite (IH Hinc'), andb_true_r.
  inversion Ha; subst. apply Qle_bool_iff. now apply Qlt_le_weak.
Qed.

(** On equally many non-empty rows and labels, a proper range and at least
    one bin, [reliability_diagram] returns. *)
Lemma reliability_diagram_total y p_pred n_bins lo hi :
  length p_pred = length y ->
  Forall (fun row => row <> []) p_pred ->
  lo < hi -> (1 <= n_bins)%nat ->
  exists r, reliability_diagram y p_pred n_bins (Some (lo, hi)) = Ok r.
Proof.
  intros Hlen Hrows Hlt Hn. unfold reliability_diagram. cbn [bind fst snd].
  destruct (mapM_total np.argmax p_pred) as [y_pred Hy].
  { eapply Forall_impl; [|exact Hrows]. simpl. intros row Hrow.
    destruct (argmax_max_total row Hrow) as (k & _ & Hk & _). eauto. }
  destruct (mapM_total np.max p_pred) as [p_max Hp].
  { eapply Forall_impl; [|exact Hrows]. simpl. intros row Hrow.
    destruct (argmax_max_total row Hrow) as (_ & m & _ & Hm). eauto. }
  unfold np.argmax_rows, np.max_rows. rewrite Hy, Hp. cbn [bind].
  assert (Hhalf : exists half, truediv hi (of_nat (2 * n_bins)) = Ok half).
  { unfold truediv.
    assert (E : Qeq_bool (of_nat (2 * n_bins)) 0 = false).
    { apply Qeq_bool_false_iff. intros H.
      pose proof (of_nat_pos (2 * n_bins) ltac:(lia)) as P.
      rewrite H in P. now apply Qlt_irrefl in P. }
    rewrite E. eauto. }
  destruct Hhalf as [half ->]. cbn [bind].
  pose proof (mapM_Ok_length _ _ _ Hy) as Ly.
  pose proof (mapM_Ok_length _ _ _ Hp) as Lp.
  rewrite equal_same_length by (rewrite length_map; lia). cbn [bind].
  rewrite binned_statistic_Ok; auto.
  2:{ unfold astype_int. rewrite !length_map, length_combine, length_map. lia. }
  cbn [bind]. unfold np.histogram.
  rewrite increasing_monotone by now apply linspace_increasing.
  cbn [bind]. eauto.
Qed.



(** ** np.histogram and the cumulative curves *)

Lemma fold_left_Zadd (l : list Z) (acc : Z) :
  fold_left Z.add l acc = (acc + np.sumZ l)%Z.
Proof.
  unfold np.sumZ. revert acc; induction l as [|x r IH]; intros acc; simpl; [lia|].
  rewrite IH, (IH x). lia.
Qed.

(** The counts sum to the difference of the last and the first cumulative
    count. *)
Lemma sumZ_diff (a : Z) (l : list Z) :
  np.sumZ (np.diff (a :: l)) = (last (a :: l) 0 - a)%Z.
Proof.
  revert a; induction l as [|b r IH]; intros a.
  - simpl. unfold np.sumZ. simpl. lia.
  - change (np.diff (a :: b :: r)) with ((b - a)%Z :: np.diff (b :: r)).
    unfold np.sumZ at 1. cbn [fold_left]. rewrite fold_left_Zadd, IH.
    change (last (a :: b :: r) 0%Z) with (last (b :: r) 0%Z). lia.
Qed.

Lemma count_lt_le (a : list Q) (v w : Q) :
  v <= w -> (np.count_lt a v <= np.count_lt a w)%Z /\
            (np.count_lt a v <= np.count_le a w)%Z.
Proof.
  intros Hvw. unfold np.count_lt, np.count_le.
  induction a as [|x r [IH1 IH2]]; simpl; [lia|].
  destruct (Qlt_bool x v) eqn:E1.
  - apply Qlt_bool_iff in E1.
    assert (E2 : Qlt_bool x w = true) by (apply Qlt_bool_iff; now apply Qlt_le_trans with v).
    assert (E3 : Qle_bool x w = true)
      by (apply Qle_bool_iff, Qlt_le_weak; now apply Qlt_le_trans with v).
    rewrite E2, E3. simpl length. lia.
  - destruct (Qlt_bool x w), (Qle_bool x w); simpl length; lia.
Qed.

Lemma search_sorted_hd (a : list Q) (v w : Q) (r : list Q) :
  hd 0%Z (np.search_sorted_inclusive a (v :: w :: r)) = np.count_lt a v.
Proof. reflexivity. Qed.

Lemma search_sorted_last (a : list Q) (v : Q) (r : list Q) :
  last (np.search_sorted_inclusive a (v :: r)) 0%Z = np.count_le a (last (v :: r) 0).
Proof.
  revert v; induction r as [|w r IH]; intros v; [reflexivity|].
  change (np.search_sorted_inclusive a (v :: w :: r))
    with (np.count_lt a v :: np.search_sorted_inclusive a (w :: r)).
  change (last (v :: w :: r) 0) with (last (w :: r) 0).
  rewrite <- IH. destruct r; reflexivity.
Qed.

Lemma search_sorted_length (a edges : list Q) :
  length (np.search_sorted_inclusive a edges) = length edges.
Proof.
  induction edges as [|v [|w r] IH]; simpl in *; auto.
Qed.

Lemma diff_length (l : list Z) : length (np.diff l) = Nat.pred (length l).
Proof.
  induction l as [|a [|b r] IH]; simpl in *; auto.
Qed.

(** On monotone edges no bin count is negative. *)
Lemma histogram_nonneg (a edges : list Q) (hist : list Z) :
  np.histogram a edges = Ok hist -> Forall (fun c => (0 <= c)%Z) hist.
Proof.
  unfold np.histogram. destruct (np.monotone edges) eqn:M; [|discriminate].
  intros H; injection H as <-.
  induction edges as [|v [|w r] IH]; [constructor | constructor |].
  change (np.monotone (v :: w :: r)) with (Qle_bool v w && np.monotone (w :: r)) in M.
  apply andb_true_iff in M. destruct M as [Hvw M]. apply Qle_bool_iff in Hvw.
  specialize (IH M).
  change (np.search_sorted_inclusive a (v :: w :: r))
    with (np.count_lt a v :: np.search_sorted_inclusive a (w :: r)).
  destruct (count_lt_le a v w Hvw) as [H1 H2].
  destruct r as [|u r].
  - simpl. constructor; [lia | constructor].
  - change (np.search_sorted_inclusive a (w :: u :: r))
      with (np.count_lt a w :: np.search_sorted_inclusive a (u :: r)) in *.
    change (np.diff (np.count_lt a v :: np.count_lt a w :: np.search_sorted_inclusive a (u :: r)))
      with ((np.count_lt a w - np.count_lt a v)%Z
              :: np.diff (np.count_lt a w :: np.search_sorted_inclusive a (u :: r))).
    constructor; [lia | exact IH].
Qed.

Lemma count_lt_none (a : list Q) (v : Q) :
  Forall (fun x => v <= x) a -> np.count_lt a v = 0%Z.
Proof.
  unfold np.count_lt. induction 1 as [|x r Hx _ IH]; [reflexivity|].
  simpl. apply Qlt_bool_false_iff in Hx. now rewrite Hx.
Qed.

Lemma count_le_all (a : list Q) (v : Q) :
  Forall (fun x => x <= v) a -> np.count_le a v = Z.of_nat (length a).
Proof.
  unfold np.count_le. induction 1 as [|x r Hx _ IH]; [reflexivity|].
  simpl. apply Qle_bool_iff in Hx. rewrite Hx. simpl length. lia.
Qed.

(** With at least two edges from 0 to 1, the histogram of samples of
    [[0, 1]] counts every sample. *)
Lemma histogram_unit_total (a : list Q) (n : nat) (hist : list Z) :
  (2 <= n)%nat ->
  Forall (fun x => 0 <= x <= 1) a ->
  np.histogram a (np.linspace 0 1 n) = Ok hist ->
  np.sumZ hist = Z.of_nat (length a) /\ length hist = Nat.pred n.
Proof.
  intros Hn Ha H. unfold np.histogram in H.
  destruct (np.monotone (np.linspace 0 1 n)); [|discriminate].
  injection H as <-.
  rewrite diff_length, search_sorted_length, linspace_length. split; [|reflexivity].
  destruct n as [|[|d]]; try lia.
  pose proof (linspace_last 0 1 d) as Hlast.
  pose proof (linspace_nth 0 1 d 0 ltac:(lia)) as Hfirst.
  pose proof (linspace_length 0 1 (S (S d))) as Hlen.
  destruct (np.linspace 0 1 (S (S d))) as [|v [|w r]]; simpl in Hlen; try lia.
  simpl nth in Hfirst.
  assert (Hs : np.search_sorted_inclusive a (v :: w :: r)
               = np.count_lt a v :: np.search_sorted_inclusive a (w :: r))
    by reflexivity.
  rewrite Hs, sumZ_diff, <- Hs, search_sorted_last, Hlast.
  rewrite count_le_all, count_lt_none; [lia| |].
  - eapply Forall_impl; [|exact Ha]. simpl. intros x [Hx _].
    rewrite Hfirst. change (of_nat 0) with 0.
    setoid_replace (0 + 0 * (1 - 0) / of_nat (S d)) with 0; [exact Hx|].
    field. apply of_nat_S_nonzero.
  - eapply Forall_impl; [|exact Ha]. simpl. intros x [_ Hx]. exact Hx.
Qed.



Lemma cumsumZ_from_length (l : list Z) (acc : Z) :
  length (np.cumsumZ_from acc l) = length l.
Proof.
  revert acc; induction l as [|x r IH]; intros acc; simpl; auto.
Qed.




(** ** Boolean masks *)

Lemma mask_select_Ok {A : Type} (a : list A) (m : list bool) (l : list A) :
  np.mask_select a m = Ok l ->
  length a = length m /\ l = map fst (filter snd (combine a m)).
Proof.
  unfold np.mask_select. destruct (length a =? length m)%nat eqn:E; [|discriminate].
  apply Nat.eqb_eq in E. intros H; injection H as <-. auto.
Qed.

Lemma mask_select_In {A : Type} (a : list A) (m : list bool) (l : list A) :
  np.mask_select a m = Ok l -> forall x, In x l -> In x a.
Proof.
  intros H x Hx. apply mask_select_Ok in H. destruct H as [_ ->].
  apply in_map_iff in Hx. destruct Hx as ([x' b] & <- & Hin).
  apply filter_In in Hin. destruct Hin as [Hin _].
  now apply in_combine_l in Hin.
Qed.

Lemma mask_select_nonempty {A : Type} (a : list A) (m : list bool) (l : list A) :
  np.mask_select a m = Ok l -> In true m -> l <> [].
Proof.
  intros H Hin. apply mask_select_Ok in H. destruct H as [Hlen ->].
  revert m Hlen Hin. induction a as [|x a IH]; intros [|b m] Hlen Hin;
    simpl in *; try lia; try contradiction.
  destruct b; simpl; [discriminate|].
  destruct Hin as [Hin|Hin]; [discriminate|].
  apply IH; [lia | exact Hin].
Qed.

Lemma max_rows_confidence (p : list (list Q)) (p_max : list Q) :
  np.max_rows p = Ok p_max -> p_max = map row_confidence p.
Proof.
  intros H. apply (mapM_Ok_map _ 0) in H. exact H.
Qed.

(** ** Cumulative confidence curves *)

Ltac by_computation :=
  match goal with
  | |- _ <= _ => apply Qle_bool_iff; reflexivity
  | |- _ < _ => apply Qlt_bool_iff; reflexivity
  | |- _ == _ => apply Qeq_bool_iff; reflexivity
  | |- _ /\ _ => split; by_computation
  | |- Forall _ _ => repeat constructor; by_computation
  | |- In _ _ => simpl; tauto
  | |- _ => reflexivity
  end.




(** ** Normalisation by a zero count *)

Lemma search_sorted_empty (edges : list Q) :
  Forall (eq 0%Z) (np.search_sorted_inclusive [] edges).
Proof.
  induction edges as [|v [|w r] IH]; simpl in *; repeat constructor; auto.
Qed.

Lemma diff_zeros (l : list Z) : Forall (eq 0%Z) l -> Forall (eq 0%Z) (np.diff l).
Proof.
  induction l as [|a [|b r] IH]; intros H; [constructor | constructor |].
  inversion H as [|? ? <- H']; subst. specialize (IH H').
  inversion H' as [|? ? <- _]; subst.
  change (np.diff (0%Z :: 0%Z :: r)) with ((0 - 0)%Z :: np.diff (0%Z :: r)).
  constructor; [reflexivity | exact IH].
Qed.

(** All counts zero: the sum is zero and every quotient is [0 / 0]. *)
Lemma cumulative_fraction_zeros (hist : list Z) :
  Forall (eq 0%Z) hist ->
  np.sumZ hist = 0%Z /\ Forall (eq NaN) (cumulative_fraction hist).
Proof.
  intros H.
  assert (Hsum : np.sumZ hist = 0%Z).
  { unfold np.sumZ. induction H as [|x r <- _ IH]; simpl; auto. }
  split; [exact Hsum|].
  unfold cumulative_fraction, np.divide_counts, np.cumsumZ. rewrite Hsum.
  clear Hsum. induction H as [|x r <- _ IH]; simpl; constructor; auto.
Qed.

(** Whenever no prediction is false, the call still returns and every
    entry of the false-prediction curve is [nan]. *)
Lemma no_false_prediction_curve y y_pred p_pred n_bins r :
  over_underconfidence_curve y y_pred p_pred n_bins = Ok r ->
  ou_conf_false r = [] ->
  length (ou_conf_false_cum r) = Nat.pred n_bins /\
  Forall (eq NaN) (ou_conf_false_cum r).
Proof.
  intros H Hnil. apply over_underconfidence_curve_Ok in H.
  destruct H as (pc & p_max & fh & ch & _ & _ & _ & _ & _ & Hfh & _ & -> & _).
  rewrite Hnil in Hfh. unfold np.histogram in Hfh.
  destruct (np.monotone (np.linspace 0 1 n_bins)); [|discriminate].
  injection Hfh as <-.
  split.
  - unfold cumulative_fraction, np.divide_counts, np.cumsumZ.
    now rewrite length_map, cumsumZ_from_length, diff_length,
      search_sorted_length, linspace_length.
  - apply cumulative_fraction_zeros, diff_zeros, search_sorted_empty.
Qed.

(** C6.  The normalisations are not guarded.  With every prediction
    correct, [over_underconfidence_curve] returns a false-prediction curve
    made of [nan]; with every confidence below the default range (three
    probability columns, two distinct labels), [reliability_diagram]
    returns sample fractions made of [nan].  Neither call raises. *)
Theorem zero_count_normalization_yields_nan :
  (exists r,
      over_underconfidence_curve [0; 1]%Z [0; 1]%Z
        [[9 # 10; 1 # 10]; [2 # 10; 8 # 10]] 3 = Ok r /\
      ou_conf_false r = [] /\
      ou_conf_false_cum r = [NaN; NaN] /\
      ou_conf_correct_cum r <> [NaN; NaN]) /\
  (exists r,
      reliability_diagram [0; 1]%Z
        [[4 # 10; 3 # 10; 3 # 10]; [3 # 10; 4 # 10; 3 # 10]] 2 None = Ok r /\
      rd_hist r = [0; 0]%Z /\
      np.sumZ (rd_hist r) = 0%Z /\
      rd_hist_fraction r = [NaN; NaN]).
Proof.
  split.
  - destruct (over_underconfidence_curve [0; 1]%Z [0; 1]%Z
                [[9 # 10; 1 # 10]; [2 # 10; 8 # 10]] 3) as [r|e] eqn:E;
      [|vm_compute in E; discriminate].
    exists r. split; [reflexivity|].
    vm_compute in E. injection E as <-. simpl.
    repeat split; discriminate.
  - destruct (reliability_diagram [0; 1]%Z
                [[4 # 10; 3 # 10; 3 # 10]; [3 # 10; 4 # 10; 3 # 10]] 2 None)
      as [r|e] eqn:E; [|vm_compute in E; discriminate].
    exists r. split; [reflexivity|].
    vm_compute in E. injection E as <-. simpl.
    repeat split.
Qed.

(** ** np.unique and the default confidence floor *)

Lemma insert_unique_In (a : Z) (l : list Z) (x : Z) :
  In x (np.insert_unique a l) <-> x = a \/ In x l.
Proof.
  induction l as [|h t IH]; simpl.
  - intuition.
  - destruct (a <? h)%Z eqn:E1; [simpl; intuition|].
    destruct (a =? h)%Z eqn:E2.
    + apply Z.eqb_eq in E2. subst. simpl. intuition.
    + simpl. rewrite IH. intuition.
Qed.

Lemma unique_In (l : list Z) (x : Z) : In x (np.unique l) <-> In x l.
Proof.
  unfold np.unique. induction l as [|a l IH]; simpl; [tauto|].
  rewrite insert_unique_In, IH. intuition.
Qed.

Lemma insert_unique_sorted (a : Z) (l : list Z) :
  StronglySorted Z.lt l -> StronglySorted Z.lt (np.insert_unique a l).
Proof.
  induction 1 as [|h t Ht IH Hh]; simpl.
  - repeat constructor.
  - destruct (a <? h)%Z eqn:E1.
    + apply Z.ltb_lt in E1. constructor; [constructor; auto|].
      constructor; [exact E1|].
      eapply Forall_impl; [|exact Hh]. simpl. intros. lia.
    + apply Z.ltb_ge in E1. destruct (a =? h)%Z eqn:E2.
      * constructor; auto.
      * apply Z.eqb_neq in E2. constructor; [exact IH|].
        apply Forall_forall. intros x Hx. apply insert_unique_In in Hx.
        destruct Hx as [->|Hx]; [lia|].
        rewrite Forall_forall in Hh. auto.
Qed.

Lemma unique_sorted (l : list Z) : StronglySorted Z.lt (np.unique l).
Proof.
  unfold np.unique. induction l as [|a l IH]; simpl;
    [constructor | now apply insert_unique_sorted].
Qed.

Lemma unique_NoDup (l : list Z) : NoDup (np.unique l).
Proof.
  pose proof (unique_sorted l) as H.
  induction H as [|h t _ IH Hh]; constructor; auto.
  intros Hin. rewrite Forall_forall in Hh. specialize (Hh _ Hin). lia.
Qed.

Lemma truediv_Ok (a b q : Q) : truediv a b = Ok q -> q = a / b /\ ~ b == 0.
Proof.
  unfold truediv. destruct (Qeq_bool b 0) eqn:E; [discriminate|].
  intros H; injection H as <-. split; [reflexivity|].
  now apply Qeq_bool_false_iff.
Qed.

(** C7.  Without limits or class count from the caller, [n_classes] is the
    number of distinct labels of [y] (the labels of [np.unique y], each
    once), and [1 / n_classes] is the lower limit of the range of
    [reliability_diagram] and the confidence floor of [confidence_diagram]
    and of the thresholds of [confidence_trajectories]. *)
Theorem default_confidence_floor (y : list Z) :
  let n_classes := length (np.unique y) in
  (NoDup (np.unique y) /\ forall a, In a (np.unique y) <-> In a y) /\
  (forall p_pred n_bins r,
      reliability_diagram y p_pred n_bins None = Ok r ->
      rd_xlim r = (1 / of_nat n_classes, 1) /\
      rd_bins r = np.linspace (1 / of_nat n_classes) 1 (n_bins + 1)) /\
  (forall y_pred p_pred n_bins r,
      confidence_diagram y y_pred p_pred None n_bins = Ok r ->
      cd_n_classes r = n_classes /\ cd_floor r = 1 / of_nat n_classes) /\
  (forall y_pred p_pred n_thresh_steps r,
      confidence_trajectories y y_pred p_pred None n_thresh_steps = Ok r ->
      ct_n_classes r = n_classes /\
      ct_conf_thresholds r = np.linspace (1 / of_nat n_classes) 1 n_thresh_steps).
Proof.
  intros n_classes. split; [|split; [|split]].
  - split; [apply unique_NoDup | apply unique_In].
  - intros p_pred n_bins r H. apply reliability_diagram_Ok in H.
    destruct H as (lim & yp & pm & half & correct & acc & hist
                   & Hlim & _ & _ & _ & _ & _ & _ & ->).
    inv_bind Hlim. injection Hlim as <-.
    apply truediv_Ok in E. destruct E as [-> _].
    cbn [rd_xlim rd_bins fst snd]. auto.
  - intros y_pred p_pred n_bins r H. apply confidence_diagram_Ok in H.
    destruct H as (floor & Hf & Hn & Hfl & _).
    apply truediv_Ok in Hf. destruct Hf as [-> _]. auto.
  - intros y_pred p_pred steps r H. apply confidence_trajectories_Ok in H.
    destruct H as (pc & pm & sc & sf & floor & _ & _ & _ & _ & _ & _ & Hf & Hn & Ht & _).
    apply truediv_Ok in Hf. destruct Hf as [-> _]. auto.
Qed.

Lemma default_confidence_floor_witness :
  let y := [2; 0; 1; 0]%Z in
  let p_pred := [[1 # 10; 2 # 10; 7 # 10]; [6 # 10; 2 # 10; 2 # 10];
                 [3 # 10; 4 # 10; 3 # 10]; [5 # 10; 3 # 10; 2 # 10]] in
  length (np.unique y) = 3%nat /\
  (exists r, reliability_diagram y p_pred 4 None = Ok r /\
             rd_xlim r = (1 / of_nat (length (np.unique y)), 1)) /\
  (exists r, confidence_diagram y [2; 0; 0; 0]%Z p_pred None 4 = Ok r /\
             cd_floor r = 1 / of_nat (length (np.unique y))) /\
  (exists r, confidence_trajectories y [2; 0; 0; 0]%Z p_pred None 5 = Ok r /\
             ct_conf_thresholds r
             = np.linspace (1 / of_nat (length (np.unique y))) 1 5).
Proof.
  intros y p_pred.
  destruct (default_confidence_floor y) as (_ & Hrd & Hcd & Hct).
  split; [reflexivity|]. split; [|split].
  - destruct (reliability_diagram y p_pred 4 None) as [r|e] eqn:E;
      [|vm_compute in E; discriminate].
    exists r. split; [reflexivity|]. apply (Hrd _ _ _ E).
  - destruct (confidence_diagram y [2; 0; 0; 0]%Z p_pred None 4) as [r|e] eqn:E;
      [|vm_compute in E; discriminate].
    exists r. split; [reflexivity|]. apply (Hcd _ _ _ _ E).
  - destruct (confidence_trajectories y [2; 0; 0; 0]%Z p_pred None 5) as [r|e] eqn:E;
      [|vm_compute in E; discriminate].
    exists r. split; [reflexivity|]. apply (Hct _ _ _ _ E).
Defined.

(** ** np.sort and np.min *)

Lemma insert_Forall (P : Q -> Prop) (x : Q) (l : list Q) :
  P x -> Forall P l -> Forall P (np.insert x l).
Proof.
  intros Hx. induction 1 as [|h t Hh Ht IH]; simpl.
  - repeat constructor; auto.
  - destruct (Qle_bool x h); repeat constructor; auto.
Qed.

Lemma insert_sorted (x : Q) (l : list Q) :
  StronglySorted Qle l -> StronglySorted Qle (np.insert x l).
Proof.
  induction 1 as [|h t Ht IH Hh]; simpl.
  - repeat constructor.
  - destruct (Qle_bool x h) eqn:E.
    + apply Qle_bool_iff in E. constructor; [constructor; auto|].
      constructor; [exact E|].
      eapply Forall_impl; [|exact Hh]. simpl. intros a Ha. now apply Qle_trans with h.
    + apply Qle_bool_false_iff in E. constructor; [exact IH|].
      apply insert_Forall; [now apply Qlt_le_weak | exact Hh].
Qed.

Lemma sort_sorted (l : list Q) : StronglySorted Qle (np.sort l).
Proof.
  unfold np.sort. induction l as [|a l IH]; simpl;
    [constructor | now apply insert_sorted].
Qed.

Lemma min_from_least (best : Q) (l : list Q) :
  np.min_from best l <= best /\ Forall (fun x => np.min_from best l <= x) l.
Proof.
  revert best. induction l as [|x r IH]; intros best; simpl.
  - split; [apply Qle_refl | constructor].
  - destruct (Qlt_bool x best) eqn:E.
    + apply Qlt_bool_iff in E. destruct (IH x) as [H1 H2]. split.
      * apply Qle_trans with x; [exact H1 | now apply Qlt_le_weak].
      * constructor; auto.
    + apply Qlt_bool_false_iff in E. destruct (IH best) as [H1 H2]. split; auto.
      constructor; auto. now apply Qle_trans with best.
Qed.

Lemma min_least (l : list Q) (m : Q) :
  np.min l = Ok m -> In m l /\ Forall (fun x => m <= x) l.
Proof.
  destruct l as [|x r]; simpl; [discriminate|].
  intros H; injection H as <-. split.
  - apply min_from_In.
  - destruct (min_from_least x r) as [H1 H2]. constructor; auto.
Qed.

Lemma min_from_sorted (best : Q) (l : list Q) :
  Forall (fun x => best <= x) l -> np.min_from best l = best.
Proof.
  induction 1 as [|x r Hx _ IH]; simpl; [reflexivity|].
  apply Qlt_bool_false_iff in Hx. now rewrite Hx.
Qed.

(** ** cummean *)

Lemma nth_error_combine_Some {A B : Type} (l1 : list A) (l2 : list B) (k : nat) a b :
  nth_error l1 k = Some a -> nth_error l2 k = Some b ->
  nth_error (combine l1 l2) k = Some (a, b).
Proof.
  revert l2 k; induction l1 as [|x l1 IH]; intros [|y l2] [|k] H1 H2;
    simpl in *; try discriminate.
  - now inversion H1; inversion H2.
  - now apply IH.
Qed.

Lemma cumsum_from_nth (A : list Q) (c : Q) (X : list Q) (acc : Q) :
  nth_error (np.cumsum_from acc (A ++ c :: X)) (length A)
  = Some (fold_left Qplus (A ++ [c]) acc).
Proof.
  revert acc. induction A as [|a A IH]; intros acc; simpl; [reflexivity|].
  apply IH.
Qed.

Lemma arange1_nth (n k : nat) :
  (k < n)%nat -> nth_error (np.arange1 n) k = Some (of_nat (S k)).
Proof.
  intros Hk. unfold np.arange1. rewrite nth_error_map, nth_error_seq.
  assert (E : (k <? n)%nat = true) by now apply Nat.ltb_lt.
  rewrite E. reflexivity.
Qed.

(** The cumulative mean at the position of [c] in [A ++ c :: X] is the
    mean of [A] and [c]. *)
Lemma cummean_nth (A : list Q) (c : Q) (X : list Q) :
  nth_error (cummean (A ++ c :: X)) (length A)
  = Some (Fin (np.sum (A ++ [c]) / of_nat (S (length A)))).
Proof.
  unfold cummean. rewrite nth_error_map.
  rewrite (nth_error_combine_Some _ _ _ (np.sum (A ++ [c])) (of_nat (S (length A)))).
  - cbn [option_map fst snd]. unfold np.true_divide.
    assert (E : Qeq_bool (of_nat (S (length A))) 0 = false)
      by (apply Qeq_bool_false_iff, of_nat_S_nonzero).
    now rewrite E.
  - apply cumsum_from_nth.
  - apply arange1_nth. rewrite length_app. simpl. lia.
Qed.

(** ** confidence_trajectories, one threshold at a time *)

Lemma take_Ok_nth {A : Type} (a : list A) (idx : list nat) (l : list A) :
  np.take a idx = Ok l ->
  forall i k, nth_error idx i = Some k ->
         exists v, nth_error l i = Some v /\ nth_error a k = Some v.
Proof.
  intros H i k Hk. unfold np.take in H.
  destruct (mapM_Ok_nth _ _ _ H i k Hk) as (v & Hv & Hf).
  exists v. split; [exact Hv|].
  destruct (nth_error a k); [now injection Hf as -> | discriminate].
Qed.

(** What one position of a trajectory holds: the helper's index for the
    threshold and the cumulative mean at that index. *)
Lemma trajectory_entry (conf thresholds : list Q) (max_els : list nat)
    (avg : list float64) (i : nat) (t : Q) :
  mapM (index_of_max_element_below_thresh conf) thresholds = Ok max_els ->
  np.take (cummean conf) max_els = Ok avg ->
  nth_error thresholds i = Some t ->
  exists k v,
    index_of_max_element_below_thresh conf t = Ok k /\
    nth_error max_els i = Some k /\
    nth_error (cummean conf) k = Some v /\
    nth_error avg i = Some v.
Proof.
  intros Hm Ht Hi.
  destruct (mapM_Ok_nth _ _ _ Hm i t Hi) as (k & Hk & Hf).
  destruct (take_Ok_nth _ _ _ Ht i k Hk) as (v & Hv & Hc).
  exists k, v. auto.
Qed.

Lemma starts_at_smallest_entry (conf : list Q) (t : Q) (k : nat) (v : float64) :
  StronglySorted Qle conf ->
  index_of_max_element_below_thresh conf t = Ok k ->
  nth_error (cummean conf) k = Some v ->
  starts_at_smallest conf t (Some k) (Some v).
Proof.
  intros Hs Hk Hv c Hmin Hlt.
  unfold index_of_max_element_below_thresh in Hk. rewrite Hmin in Hk.
  cbn [bind] in Hk. apply Qlt_bool_iff in Hlt. rewrite Hlt in Hk.
  injection Hk as <-. split; [reflexivity|].
  destruct conf as [|c0 rest]; [discriminate|].
  apply StronglySorted_inv in Hs. destruct Hs as [_ Hall].
  simpl in Hmin. rewrite (min_from_sorted _ _ Hall) in Hmin. injection Hmin as <-.
  pose proof (cummean_nth [] c0 rest) as Hc. simpl length in Hc.
  change ([] ++ c0 :: rest) with (c0 :: rest) in Hc. rewrite Hc in Hv.
  injection Hv as <-. eexists. split; [reflexivity|].
  unfold np.sum. simpl. change (of_nat 1) with 1. field.
Qed.

Lemma selection_nonempty (elements : list Q) (t m : Q) :
  np.min elements = Ok m -> ~ t < m ->
  filter (fun e => Qle_bool e t) elements <> [].
Proof.
  intros Hmin Hnlt. apply min_least in Hmin. destruct Hmin as [Hin _].
  assert (Hsel : In m (filter (fun e => Qle_bool e t) elements)).
  { apply filter_In. split; [exact Hin|].
    apply Qle_bool_iff. now apply Qnot_lt_le. }
  intros E. rewrite E in Hsel. contradiction.
Qed.

Lemma index_of_max_element_below_thresh_total (elements : list Q) (t : Q) :
  elements <> [] ->
  exists k, index_of_max_element_below_thresh elements t = Ok k /\
            (k < length elements)%nat.
Proof.
  intros Hne. unfold index_of_max_element_below_thresh.
  destruct (np.min elements) as [m|e] eqn:Hmin;
    [|destruct elements; [congruence | discriminate]].
  cbn [bind]. destruct (Qlt_bool t m) eqn:E.
  - exists 0%nat. split; [reflexivity|]. destruct elements; [congruence | simpl; lia].
  - assert (Hnlt : ~ t < m).
    { intros H. apply Qlt_bool_iff in H. congruence. }
    pose proof (selection_nonempty _ _ _ Hmin Hnlt) as Hsel.
    destruct (argmax_max_total _ Hsel) as (k & mx & Hk & Hmx).
    exists k. split; [exact Hk|].
    destruct (argmax_split _ _ _ Hk Hmx) as (A & B & Heq & Hlen & _).
    pose proof (filter_length_le (fun e => Qle_bool e t) elements) as Hle.
    rewrite Heq, length_app in Hle. simpl in Hle. lia.
Qed.

(** C10.  On a non-empty array the helper never raises and never hands an
    empty selection to [np.argmax]; at a threshold below the smallest
    confidence it returns index 0, and the trajectory value there is the
    smallest confidence. *)
Theorem threshold_below_all_confidences :
  (forall elements t,
      elements <> [] ->
      exists k, index_of_max_element_below_thresh elements t = Ok k /\
                (k < length elements)%nat) /\
  (forall elements t m,
      np.min elements = Ok m -> ~ t < m ->
      filter (fun e => Qle_bool e t) elements <> []) /\
  (forall y y_pred p_pred n_classes n_thresh_steps r,
      confidence_trajectories y y_pred p_pred n_classes n_thresh_steps = Ok r ->
      forall i t, nth_error (ct_conf_thresholds r) i = Some t ->
        starts_at_smallest (ct_conf_correct r) t
          (nth_error (ct_max_els_conf_correct r) i)
          (nth_error (ct_avg_conf_correct r) i) /\
        starts_at_smallest (ct_conf_false r) t
          (nth_error (ct_max_els_conf_false r) i)
          (nth_error (ct_avg_conf_false r) i)).
Proof.
  split; [exact index_of_max_element_below_thresh_total|].
  split; [exact selection_nonempty|].
  intros y y_pred p_pred n_classes steps r H i t Hi.
  apply confidence_trajectories_Ok in H.
  destruct H as (pc & pm & sc & sf & floor & _ & _ & _ & _ & Hcc & Hcf & _ & _ & _
                 & Hmc & Hmf & Hac & Haf).
  split.
  - destruct (trajectory_entry _ _ _ _ _ _ Hmc Hac Hi) as (k & v & Hk & -> & Hv & ->).
    apply starts_at_smallest_entry; auto.
    rewrite Hcc. apply sort_sorted.
  - destruct (trajectory_entry _ _ _ _ _ _ Hmf Haf Hi) as (k & v & Hk & -> & Hv & ->).
    apply starts_at_smallest_entry; auto.
    rewrite Hcf. apply sort_sorted.
Qed.

Lemma threshold_below_all_confidences_witness :
  exists r q,
    confidence_trajectories [0; 0; 0; 1]%Z [0; 0; 0; 0]%Z
      [[6 # 10; 4 # 10]; [8 # 10; 2 # 10]; [8 # 10; 2 # 10]; [7 # 10; 3 # 10]]
      None 2 = Ok r /\
    ct_conf_correct r = [6 # 10; 8 # 10; 8 # 10] /\
    nth_error (ct_max_els_conf_correct r) 0 = Some 0%nat /\
    nth_error (ct_avg_conf_correct r) 0 = Some (Fin q) /\
    q == 6 # 10.
Proof.
  destruct (confidence_trajectories [0; 0; 0; 1]%Z [0; 0; 0; 0]%Z
      [[6 # 10; 4 # 10]; [8 # 10; 2 # 10]; [8 # 10; 2 # 10]; [7 # 10; 3 # 10]]
      None 2) as [r|e] eqn:E; [|vm_compute in E; discriminate].
  destruct threshold_below_all_confidences as (_ & _ & H).
  specialize (H _ _ _ _ _ _ E 0%nat).
  assert (Hr := E). vm_compute in Hr. injection Hr as Hr.
  rewrite <- Hr in H.
  destruct (H _ eq_refl) as [Hc _].
  destruct (Hc (6 # 10)) as (Hidx & q & Hq & Hqe);
    [reflexivity | reflexivity |].
  rewrite Hr in Hidx, Hq.
  exists r, q. repeat split; auto. now rewrite <- Hr.
Defined.

(** ** The running mean of a trajectory *)

Lemma filter_all {A : Type} (f : A -> bool) (l : list A) :
  Forall (fun x => f x = true) l -> filter f l = l.
Proof.
  induction 1 as [|x r Hx _ IH]; simpl; [reflexivity|]. now rewrite Hx, IH.
Qed.

Lemma filter_none {A : Type} (f : A -> bool) (l : list A) :
  Forall (fun x => f x = false) l -> filter f l = [].
Proof.
  induction 1 as [|x r Hx _ IH]; simpl; [reflexivity|]. now rewrite Hx.
Qed.

(** In a sorted array the entries not above a threshold form a prefix. *)
Lemma sorted_filter_prefix (t : Q) (l : list Q) :
  StronglySorted Qle l ->
  l = filter (fun e => Qle_bool e t) l ++ filter (fun e => Qlt_bool t e) l.
Proof.
  unfold Qlt_bool.
  induction 1 as [|h r Hr IH Hh]; simpl; [reflexivity|].
  destruct (Qle_bool h t) eqn:E; simpl.
  - f_equal. exact IH.
  - apply Qle_bool_false_iff in E.
    assert (Habove : Forall (fun x => Qle_bool x t = false) r).
    { eapply Forall_impl; [|exact Hh]. simpl. intros x Hx.
      apply Qle_bool_false_iff. now apply Qlt_le_trans with h. }
    rewrite (filter_none _ _ Habove). simpl. f_equal.
    symmetry. apply filter_all.
    eapply Forall_impl; [|exact Habove]. simpl. intros x Hx. now rewrite Hx.
Qed.

Lemma StronglySorted_app_tail (A : list Q) (m : Q) (X : list Q) :
  StronglySorted Qle (A ++ m :: X) -> Forall (fun x => m <= x) X.
Proof.
  induction A as [|a A IH]; simpl; intros H; apply StronglySorted_inv in H.
  - tauto.
  - apply IH. tauto.
Qed.

Lemma mean_up_to_first_largest_entry (conf : list Q) (t : Q) (k : nat) (v : float64) :
  StronglySorted Qle conf ->
  index_of_max_element_below_thresh conf t = Ok k ->
  nth_error (cummean conf) k = Some v ->
  mean_up_to_first_largest conf t (Some v).
Proof.
  intros Hs Hk Hv (c & Hin & Hct).
  set (sel := filter (fun e => Qle_bool e t) conf) in *.
  assert (Hsel : In c sel).
  { apply filter_In. split; [exact Hin | now apply Qle_bool_iff]. }
  unfold index_of_max_element_below_thresh in Hk.
  destruct (np.min conf) as [mn|e] eqn:Hmin;
    [|destruct conf; [contradiction | discriminate]].
  cbn [bind] in Hk.
  assert (E : Qlt_bool t mn = false).
  { apply Qlt_bool_false_iff. apply min_least in Hmin. destruct Hmin as [_ Hall].
    rewrite Forall_forall in Hall. apply Qle_trans with c; auto. }
  rewrite E in Hk. fold sel in Hk.
  destruct (argmax_Ok_max _ _ Hk) as [m Hm].
  destruct (argmax_split _ _ _ Hk Hm) as (A & B & Heq & Hlen & HA & HB).
  pose proof (sorted_filter_prefix t conf Hs) as Hconf. fold sel in Hconf.
  set (rest := filter (fun e => Qlt_bool t e) conf) in *.
  assert (Hdec : conf = A ++ m :: (B ++ rest)).
  { rewrite Hconf at 1. rewrite Heq, <- app_assoc. reflexivity. }
  assert (Htail : Forall (fun x => m <= x) (B ++ rest)).
  { apply (StronglySorted_app_tail A). now rewrite <- Hdec. }
  assert (Hq : v = Fin (np.sum (A ++ [m]) / of_nat (S (length A)))).
  { rewrite Hdec, <- Hlen, cummean_nth in Hv. now injection Hv. }
  assert (Hbelow : filter (fun e => Qlt_bool e m) conf = A).
  { rewrite Hdec, filter_app, filter_all, filter_none; [apply app_nil_r| |].
    - constructor; [apply Qlt_bool_false_iff, Qle_refl|].
      eapply Forall_impl; [|exact Htail]. simpl. intros x Hx.
      now apply Qlt_bool_false_iff.
    - eapply Forall_impl; [|exact HA]. simpl. intros x Hx. now apply Qlt_bool_iff. }
  exists m, (np.sum (A ++ [m]) / of_nat (S (length A))).
  split; [exact Hm|]. split; [now rewrite Hq|]. split.
  - rewrite Hbelow. unfold mean_of. rewrite length_app. simpl length.
    rewrite Nat.add_1_r. reflexivity.
  - intros Honce.
    assert (HB0 : B = []).
    { rewrite Hdec, filter_app in Honce. simpl in Honce.
      assert (Em : Qeq_bool m m = true) by (apply Qeq_bool_iff; reflexivity).
      rewrite Em, filter_app in Honce.
      rewrite (filter_all _ B) in Honce.
      - rewrite length_app in Honce. simpl in Honce. rewrite length_app in Honce.
        destruct B; [reflexivity | simpl in Honce; lia].
      - apply Forall_app in Htail. destruct Htail as [HB' _].
        rewrite Forall_forall in *. intros x Hx.
        apply Qeq_bool_iff. apply Qle_antisym; auto. }
    subst B. fold sel. rewrite Heq. unfold mean_of.
    rewrite length_app. simpl length. rewrite Nat.add_1_r. reflexivity.
Qed.

(** C4, amended.  At every threshold with a confidence not above it, the
    trajectory value is the cumulative mean up to the first occurrence of
    the largest such confidence [m]: the mean of the confidences strictly
    below [m] and of one copy of [m].  It is the mean of all confidences
    not above the threshold when [m] occurs once; further copies of [m] are
    left out of the mean. *)
Theorem trajectory_is_running_mean y y_pred p_pred n_classes n_thresh_steps r :
  confidence_trajectories y y_pred p_pred n_classes n_thresh_steps = Ok r ->
  forall i t, nth_error (ct_conf_thresholds r) i = Some t ->
    mean_up_to_first_largest (ct_conf_correct r) t
      (nth_error (ct_avg_conf_correct r) i) /\
    mean_up_to_first_largest (ct_conf_false r) t
      (nth_error (ct_avg_conf_false r) i).
Proof.
  intros H i t Hi.
  apply confidence_trajectories_Ok in H.
  destruct H as (pc & pm & sc & sf & floor & _ & _ & _ & _ & Hcc & Hcf & _ & _ & _
                 & Hmc & Hmf & Hac & Haf).
  split.
  - destruct (trajectory_entry _ _ _ _ _ _ Hmc Hac Hi) as (k & v & Hk & _ & Hv & ->).
    apply (mean_up_to_first_largest_entry _ _ k); auto.
    rewrite Hcc. apply sort_sorted.
  - destruct (trajectory_entry _ _ _ _ _ _ Hmf Haf Hi) as (k & v & Hk & _ & Hv & ->).
    apply (mean_up_to_first_largest_entry _ _ k); auto.
    rewrite Hcf. apply sort_sorted.
Qed.

Lemma trajectory_is_running_mean_witness :
  exists r q,
    confidence_trajectories [0; 0; 0; 1]%Z [0; 0; 0; 0]%Z
      [[6 # 10; 4 # 10]; [8 # 10; 2 # 10]; [9 # 10; 1 # 10]; [7 # 10; 3 # 10]]
      None 2 = Ok r /\
    ct_conf_correct r = [6 # 10; 8 # 10; 9 # 10] /\
    nth_error (ct_avg_conf_correct r) 1 = Some (Fin q) /\
    q == 23 # 30.
Proof.
  destruct (confidence_trajectories [0; 0; 0; 1]%Z [0; 0; 0; 0]%Z
      [[6 # 10; 4 # 10]; [8 # 10; 2 # 10]; [9 # 10; 1 # 10]; [7 # 10; 3 # 10]]
      None 2) as [r|e] eqn:E; [|vm_compute in E; discriminate].
  pose proof (trajectory_is_running_mean _ _ _ _ _ _ E 1%nat) as H.
  assert (Hr := E). vm_compute in Hr. injection Hr as Hr.
  rewrite <- Hr in H.
  destruct (H _ eq_refl) as [Hc _].
  destruct Hc as (m & q & Hm & Hq & _ & Hall).
  { exists (6 # 10). split; [simpl; tauto | by_computation]. }
  vm_compute in Hm. injection Hm as <-.
  rewrite Hr in Hq.
  exists r, q. split; [reflexivity|]. split; [now rewrite <- Hr|].
  split; [exact Hq|].
  rewrite Hall by reflexivity. by_computation.
Defined.

(** C4 as stated fails when the largest confidence not above the threshold
    is repeated: with the correct confidences 0.6, 0.8 and 0.8 the
    trajectory value at threshold 1 is the mean 0.7 of the first two, where
    the mean of all three is 11/15. *)
Lemma trajectory_leaves_out_repeated_largest :
  ~ (forall y y_pred p_pred n_classes n_thresh_steps r,
        confidence_trajectories y y_pred p_pred n_classes n_thresh_steps = Ok r ->
        forall i t, nth_error (ct_conf_thresholds r) i = Some t ->
          mean_of_all_below (ct_conf_correct r) t
            (nth_error (ct_avg_conf_correct r) i) /\
          mean_of_all_below (ct_conf_false r) t
            (nth_error (ct_avg_conf_false r) i)).
Proof.
  intros H.
  destruct (confidence_trajectories [0; 0; 0; 1]%Z [0; 0; 0; 0]%Z
      [[6 # 10; 4 # 10]; [8 # 10; 2 # 10]; [8 # 10; 2 # 10]; [7 # 10; 3 # 10]]
      None 2) as [r|e] eqn:E; [|vm_compute in E; discriminate].
  specialize (H _ _ _ _ _ _ E 1%nat).
  vm_compute in E. injection E as E.
  rewrite <- E in H.
  destruct (H _ eq_refl) as [Hc _].
  destruct Hc as (q & Hq & Hqe).
  { exists (6 # 10). split; [simpl; tauto | by_computation]. }
  cbn in Hq. injection Hq as <-.
  vm_compute in Hqe. discriminate.
Qed.

(** ** The smooth maximum of logsumexp_illustration *)

Section SmoothMaximum.
Local Open Scope R_scope.

Lemma exp_le (x y : R) : x <= y -> exp x <= exp y.
Proof.
  intros [H| ->]; [left; now apply exp_increasing | right; reflexivity].
Qed.

Lemma ln_le_mono (x y : R) : 0 < x -> x <= y -> ln x <= ln y.
Proof.
  intros Hx [H| ->]; [left; now apply ln_increasing | right; reflexivity].
Qed.

Lemma smooth_max_unfold (t N : R) :
  smooth_max t N = 1 / N * ln (exp (N * (1 - t)) + (exp (N * t) + 0)).
Proof. reflexivity. Qed.

Lemma smooth_max_bounds (t N : R) :
  0 < N ->
  Rmax (1 - t) t <= smooth_max t N <= Rmax (1 - t) t + ln 2 / N.
Proof.
  intros HN. rewrite smooth_max_unfold.
  set (a := Rmax (1 - t) t).
  set (total := exp (N * (1 - t)) + (exp (N * t) + 0)).
  pose proof (exp_pos (N * (1 - t))) as P1.
  pose proof (exp_pos (N * t)) as P2.
  pose proof (exp_pos (N * a)) as Pa.
  assert (Hlow : exp (N * a) <= total).
  { unfold a, total. apply Rmax_case; lra. }
  assert (Hup : total <= 2 * exp (N * a)).
  { assert (exp (N * (1 - t)) <= exp (N * a)).
    { apply exp_le. apply Rmult_le_compat_l; [lra | apply Rmax_l]. }
    assert (exp (N * t) <= exp (N * a)).
    { apply exp_le. apply Rmult_le_compat_l; [lra | apply Rmax_r]. }
    unfold total. lra. }
  assert (L1 : N * a <= ln total).
  { rewrite <- (ln_exp (N * a)). apply ln_le_mono; assumption. }
  assert (L2 : ln total <= ln 2 + N * a).
  { rewrite <- (ln_exp (N * a)). rewrite <- ln_mult by lra.
    apply ln_le_mono; lra. }
  assert (HiN : 0 < / N) by now apply Rinv_0_lt_compat.
  unfold Rdiv. rewrite Rmult_1_l.
  split.
  - apply Rmult_le_reg_l with N; [exact HN|].
    rewrite <- Rmult_assoc, Rinv_r, Rmult_1_l by lra. exact L1.
  - apply Rmult_le_reg_l with N; [exact HN|].
    rewrite <- Rmult_assoc, Rinv_r, Rmult_1_l by lra.
    rewrite Rmult_plus_distr_l.
    replace (N * (ln 2 * / N)) with (ln 2) by (field; lra). lra.
Qed.

Lemma smooth_max_limit (t : R) :
  Un_cv (fun n => smooth_max t (INR (S n))) (Rmax (1 - t) t).
Proof.
  intros eps Heps.
  assert (Hln : 0 < ln 2) by (pose proof ln_lt_2; lra).
  destruct (INR_unbounded (ln 2 / eps)) as [N0 HN0].
  exists N0. intros n Hn.
  assert (HS : 0 < INR (S n)) by (apply lt_0_INR; lia).
  destruct (smooth_max_bounds t (INR (S n)) HS) as [Hlo Hhi].
  assert (Hbig : ln 2 / INR (S n) < eps).
  { assert (HnN : INR N0 < INR (S n)) by (apply lt_INR; lia).
    assert (Hq : ln 2 / eps < INR (S n)) by lra.
    apply Rmult_lt_reg_r with (INR (S n)); [exact HS|].
    unfold Rdiv. rewrite Rmult_assoc, Rinv_l, Rmult_1_r by lra.
    apply Rmult_lt_reg_r with (/ eps); [now apply Rinv_0_lt_compat|].
    rewrite (Rmult_comm eps), Rmult_assoc, Rinv_r, Rmult_1_r by lra.
    exact Hq. }
  unfold R_dist. rewrite Rabs_right; lra.
Qed.


(** C8, amended.  For a fixed [t] in (0, 1) the smooth maximum of the row
    [[1 - t, t]] tends, as the sharpness grows, to the maximum
    [max (1 - t) t] of the row, which lies in [[1/2, 1)]: not to 1. *)
Theorem smooth_maximum_limit (t : R) :
  0 < t < 1 ->
  Un_cv (fun n => smooth_max t (INR (S n))) (Rmax (1 - t) t) /\
  1 / 2 <= Rmax (1 - t) t < 1.
Proof.
  intros Ht. split; [apply smooth_max_limit|].
  apply Rmax_case_strong; intros; lra.
Qed.

Lemma smooth_maximum_limit_witness :
  Un_cv (fun n => smooth_max (1 / 4) (INR (S n))) (Rmax (1 - 1 / 4) (1 / 4)) /\
  1 / 2 <= Rmax (1 - 1 / 4) (1 / 4) < 1.
Proof.
  apply (smooth_maximum_limit (1 / 4)). lra.
Defined.

(** C8 as stated fails: at [t = 1/2] the smooth maxima tend to 1/2 and so
    do not tend to 1. *)
Lemma smooth_maximum_does_not_reach_one :
  ~ (forall t, 0 < t < 1 -> Un_cv (fun n => smooth_max t (INR (S n))) 1).
Proof.
  intros H. specialize (H (1 / 2) ltac:(lra)).
  pose proof (smooth_max_limit (1 / 2)) as L.
  pose proof (UL_sequence _ _ _ L H) as E.
  revert E. apply Rmax_case_strong; intros; lra.
Qed.

End SmoothMaximum.

(** * Further properties of the plotting functions *)

(** ** Class count and default range *)

Lemma n_classes_of_pos (y : list Z) : y <> [] -> (1 <= n_classes_of y)%nat.
Proof.
  destruct y as [|a y]; [congruence|]. intros _. unfold n_classes_of.
  assert (H : In a (np.unique (a :: y))) by (apply unique_In; simpl; auto).
  destruct (np.unique (a :: y)); [contradiction | simpl; lia].
Qed.

Lemma truediv_nonzero (a b : Q) : ~ b == 0 -> truediv a b = Ok (a / b).
Proof.
  intros H. unfold truediv. apply Qeq_bool_false_iff in H. now rewrite H.
Qed.

Lemma truediv_zero (a : Q) : truediv a (of_nat 0) = Raise ZeroDivisionError.
Proof. reflexivity. Qed.

Lemma of_nat_nonzero (n : nat) : (1 <= n)%nat -> ~ of_nat n == 0.
Proof.
  intros H. destruct n as [|k]; [lia | apply of_nat_S_nonzero].
Qed.

Lemma truediv_Ok_pos (n : nat) (q : Q) :
  truediv 1 (of_nat n) = Ok q -> (1 <= n)%nat.
Proof.
  destruct n as [|k]; [discriminate | lia].
Qed.

Lemma inverse_of_nat_bounds (n : nat) :
  (1 <= n)%nat ->
  0 < 1 / of_nat n /\ 1 / of_nat n <= 1 /\ (1 / of_nat n < 1 <-> (2 <= n)%nat).
Proof.
  intros Hn.
  assert (Hpos : 0 < of_nat n) by (apply of_nat_pos; lia).
  assert (Hnz : ~ of_nat n == 0) by now apply of_nat_nonzero.
  assert (H1 : 1 <= of_nat n).
  { change 1 with (of_nat 1). unfold of_nat. rewrite <- Zle_Qle. lia. }
  assert (Hinv : 0 < / of_nat n) by now apply Qinv_lt_0_compat.
  assert (Hmul : (1 / of_nat n) * of_nat n == 1) by (field; exact Hnz).
  split; [|split].
  - unfold Qdiv. now rewrite Qmult_1_l.
  - apply Qmult_le_r with (z := of_nat n); [exact Hpos|].
    rewrite Hmul, Qmult_1_l. exact H1.
  - rewrite <- (Qmult_lt_r _ _ (of_nat n) Hpos), Hmul, Qmult_1_l.
    change 1 with (of_nat 1). unfold of_nat. rewrite <- Zlt_Qlt. lia.
Qed.



(** ** Errors *)

Lemma rows_total (p_pred : list (list Q)) :
  Forall (fun row => row <> []) p_pred ->
  exists y_pred p_max,
    np.argmax_rows p_pred = Ok y_pred /\ np.max_rows p_pred = Ok p_max /\
    length y_pred = length p_pred /\ length p_max = length p_pred.
Proof.
  intros Hrows.
  destruct (mapM_total np.argmax p_pred) as [y_pred Hy].
  { eapply Forall_impl; [|exact Hrows]. simpl. intros row Hrow.
    destruct (argmax_max_total row Hrow) as (k & _ & Hk & _). eauto. }
  destruct (mapM_total np.max p_pred) as [p_max Hp].
  { eapply Forall_impl; [|exact Hrows]. simpl. intros row Hrow.
    destruct (argmax_max_total row Hrow) as (_ & m & _ & Hm). eauto. }
  exists y_pred, p_max. repeat split; auto; eapply mapM_Ok_length; eauto.
Qed.

(** X2.  Zero bins: on its default range, with labels and non-empty
    probability rows, [reliability_diagram] called with [n_bins = 0] raises
    ZeroDivisionError, from [xlim[1] / (2 * n_bins)]. *)
Theorem reliability_diagram_zero_bins y p_pred :
  y <> [] ->
  Forall (fun row => row <> []) p_pred ->
  reliability_diagram y p_pred 0 None = Raise ZeroDivisionError.
Proof.
  intros Hy Hrows. unfold reliability_diagram.
  rewrite truediv_nonzero by (apply of_nat_nonzero, n_classes_of_pos, Hy).
  cbn [bind fst snd].
  destruct (rows_total _ Hrows) as (y_pred & p_max & -> & -> & _).
  reflexivity.
Qed.

Lemma reliability_diagram_zero_bins_witness :
  reliability_diagram [0; 1]%Z [[1 # 10; 9 # 10]; [7 # 10; 3 # 10]] 0 None
  = Raise ZeroDivisionError.
Proof.
  apply reliability_diagram_zero_bins.
  - discriminate.
  - repeat constructor; discriminate.
Defined.

(** X3.  No labels and no limits or class count: [n_classes] is 0 and no
    call returns.  [reliability_diagram] raises ZeroDivisionError whatever
    its other arguments are; the other two functions raise at
    [1 / n_classes] at the latest. *)
Theorem empty_labels_never_return :
  (forall p_pred n_bins,
      reliability_diagram [] p_pred n_bins None = Raise ZeroDivisionError) /\
  (forall y_pred p_pred n_bins,
      exists e, confidence_diagram [] y_pred p_pred None n_bins = Raise e) /\
  (forall y_pred p_pred n_thresh_steps,
      exists e, confidence_trajectories [] y_pred p_pred None n_thresh_steps = Raise e).
Proof.
  split; [reflexivity|]. split.
  - intros y_pred p_pred n_bins. unfold confidence_diagram.
    destruct (np.max_rows p_pred); cbn [bind]; [|eauto].
    destruct (np.not_equal [] y_pred); cbn [bind]; [|eauto].
    destruct (np.mask_select _ _); cbn [bind]; [|eauto].
    change (n_classes_of []) with 0%nat. rewrite truediv_zero. cbn [bind]. eauto.
  - intros y_pred p_pred steps. unfold confidence_trajectories.
    destruct (np.equal [] y_pred); cbn [bind]; [|eauto].
    destruct (np.max_rows p_pred); cbn [bind]; [|eauto].
    destruct (np.mask_select _ _); cbn [bind]; [|eauto].
    destruct (np.mask_select _ _); cbn [bind]; [|eauto].
    change (n_classes_of []) with 0%nat. rewrite truediv_zero. cbn [bind]. eauto.
Qed.

(** ** confidence_trajectories: when it returns *)

Lemma mapM_Raise_head {A B : Type} (f : A -> result B) (a : A) (l : list A) e :
  f a = Raise e -> mapM f (a :: l) = Raise e.
Proof. intros H. simpl. now rewrite H. Qed.

Lemma index_of_max_element_below_thresh_empty (t : Q) :
  index_of_max_element_below_thresh [] t = Raise ValueError.
Proof. reflexivity. Qed.

Lemma insert_length (x : Q) (l : list Q) : length (np.insert x l) = S (length l).
Proof.
  induction l as [|h t IH]; simpl; [reflexivity|].
  destruct (Qle_bool x h); simpl; auto.
Qed.

Lemma sort_length (l : list Q) : length (np.sort l) = length l.
Proof.
  unfold np.sort. induction l as [|a l IH]; simpl; [reflexivity|].
  now rewrite insert_length, IH.
Qed.

Lemma cumsum_from_length (l : list Q) (acc : Q) :
  length (np.cumsum_from acc l) = length l.
Proof.
  revert acc; induction l as [|x r IH]; intros acc; simpl; auto.
Qed.

Lemma cummean_length (x : list Q) : length (cummean x) = length x.
Proof.
  unfold cummean, np.cumsum, np.arange1.
  rewrite length_map, length_combine, cumsum_from_length, length_map, length_seq.
  apply Nat.min_id.
Qed.

(** On a non-empty array every threshold yields an index and a value. *)
Lemma trajectory_total (conf thresholds : list Q) :
  conf <> [] ->
  exists max_els avg,
    mapM (index_of_max_element_below_thresh conf) thresholds = Ok max_els /\
    np.take (cummean conf) max_els = Ok avg /\
    length avg = length thresholds.
Proof.
  intros Hne. induction thresholds as [|t ts (max_els & avg & Hm & Ha & Hl)].
  - exists [], []. repeat split; reflexivity.
  - destruct (index_of_max_element_below_thresh_total conf t Hne) as (k & Hk & Hlt).
    destruct (nth_error (cummean conf) k) as [v|] eqn:Ev.
    + exists (k :: max_els), (v :: avg). simpl. rewrite Hk, Hm. cbn [bind].
      unfold np.take in *. simpl. rewrite Ev, Ha. cbn [bind].
      repeat split; auto.
    + apply nth_error_None in Ev. rewrite cummean_length in Ev. lia.
Qed.

Lemma mask_select_same_length {A : Type} (a : list A) (m : list bool) :
  length a = length m ->
  np.mask_select a m = Ok (map fst (filter snd (combine a m))).
Proof.
  intros H. unfold np.mask_select. now rewrite H, Nat.eqb_refl.
Qed.

Lemma mask_select_none {A : Type} (a : list A) (m : list bool) :
  length a = length m -> Forall (eq false) m -> np.mask_select a m = Ok [].
Proof.
  intros Hlen Hm. rewrite mask_select_same_length by exact Hlen. f_equal.
  revert a Hlen. induction Hm as [|b m <- _ IH]; intros [|x a] Hlen;
    simpl in *; try lia; try reflexivity.
  apply IH. lia.
Qed.

Lemma linspace_cons (a b : Q) (n : nat) :
  (1 <= n)%nat -> exists t ts, np.linspace a b n = t :: ts.
Proof.
  intros Hn. pose proof (linspace_length a b n) as Hl.
  destruct (np.linspace a b n) as [|t ts]; [simpl in Hl; lia | eauto].
Qed.

(** X4.  A classifier that is always right, or always wrong, cannot be
    plotted: on equally long inputs with non-empty probability rows, a
    positive class count and at least one threshold,
    [confidence_trajectories] raises ValueError (from [np.min] of an empty
    array) as soon as no prediction is false or no prediction is correct. *)
Theorem confidence_trajectories_needs_both_kinds
    y y_pred p_pred n_classes n_thresh_steps :
  length y = length y_pred ->
  length p_pred = length y ->
  Forall (fun row => row <> []) p_pred ->
  (1 <= match n_classes with Some n => n | None => n_classes_of y end)%nat ->
  (1 <= n_thresh_steps)%nat ->
  Forall (fun ab => fst ab = snd ab) (combine y y_pred) \/
  Forall (fun ab => fst ab <> snd ab) (combine y y_pred) ->
  confidence_trajectories y y_pred p_pred n_classes n_thresh_steps
  = Raise ValueError.
Proof.
  intros Hlen Hp Hrows Hn Hsteps Hkind. unfold confidence_trajectories.
  set (n := match n_classes with Some n => n | None => n_classes_of y end) in *.
  rewrite equal_same_length by exact Hlen. cbn [bind].
  set (pc := map (fun ab => (fst ab =? snd ab)%Z) (combine y y_pred)).
  assert (Lpc : length pc = length y).
  { unfold pc. rewrite length_map, length_combine. lia. }
  destruct (rows_total _ Hrows) as (yp & p_max & _ & -> & _ & Lpm). cbn [bind].
  rewrite (mask_select_same_length p_max pc) by lia. cbn [bind].
  rewrite (mask_select_same_length p_max (np.invert pc))
    by (unfold np.invert; rewrite length_map; lia).
  cbn [bind].
  rewrite truediv_nonzero by now apply of_nat_nonzero.
  cbn [bind].
  destruct (linspace_cons (1 / of_nat n) 1 n_thresh_steps Hsteps) as (t & ts & ->).
  set (sel_correct := map fst (filter snd (combine p_max pc))).
  set (sel_false := map fst (filter snd (combine p_max (np.invert pc)))).
  assert (Hraise : forall conf, conf = [] ->
             mapM (index_of_max_element_below_thresh (np.sort conf)) (t :: ts)
             = Raise ValueError).
  { intros conf ->. now apply mapM_Raise_head. }
  destruct Hkind as [Hall|Hnone].
  - assert (Hf : sel_false = []).
    { assert (E : np.mask_select p_max (np.invert pc) = Ok []).
      { apply mask_select_none; [unfold np.invert; rewrite length_map; lia|].
        unfold np.invert, pc. rewrite map_map. apply Forall_map.
        eapply Forall_impl; [|exact Hall]. simpl. intros ab ->.
        now rewrite Z.eqb_refl. }
      rewrite mask_select_same_length in E
        by (unfold np.invert; rewrite length_map; lia).
      now injection E. }
    destruct sel_correct as [|c cs] eqn:Ec.
    + rewrite (Hraise [] eq_refl). reflexivity.
    + destruct (trajectory_total (np.sort (c :: cs)) (t :: ts))
        as (max_els & avg & -> & _ & _).
      { intros E. apply (f_equal (@length Q)) in E.
        rewrite sort_length in E. discriminate. }
      cbn [bind]. rewrite (Hraise sel_false Hf). reflexivity.
  - assert (Hc : sel_correct = []).
    { assert (E : np.mask_select p_max pc = Ok []).
      { apply mask_select_none; [lia|].
        unfold pc. apply Forall_map.
        eapply Forall_impl; [|exact Hnone]. simpl. intros ab Hab.
        symmetry. now apply Z.eqb_neq. }
      rewrite mask_select_same_length in E by lia. now injection E. }
    rewrite (Hraise sel_correct Hc). reflexivity.
Qed.

Lemma confidence_trajectories_needs_both_kinds_witness :
  confidence_trajectories [0; 1; 1]%Z [0; 1; 1]%Z
    [[9 # 10; 1 # 10]; [2 # 10; 8 # 10]; [4 # 10; 6 # 10]] None 3
  = Raise ValueError.
Proof.
  apply confidence_trajectories_needs_both_kinds.
  - reflexivity.
  - reflexivity.
  - repeat constructor; discriminate.
  - vm_compute. lia.
  - lia.
  - left. repeat constructor.
Defined.

Lemma mask_partition_length {A : Type} (a : list A) (m : list bool) :
  length a = length m ->
  (length (filter snd (combine a m))
   + length (filter snd (combine a (np.invert m))))%nat = length a.
Proof.
  unfold np.invert. revert m. induction a as [|x a IH]; intros [|b m] Hlen;
    simpl in *; try lia.
  specialize (IH m ltac:(lia)). destruct b; simpl; lia.
Qed.

(** X5.  With at least one correct and one false prediction, equally long
    inputs, non-empty probability rows and a positive class count,
    [confidence_trajectories] returns; every sample's confidence is in
    exactly one of the two sorted arrays, and both trajectories have one
    value per threshold, [n_thresh_steps] of them. *)
Theorem confidence_trajectories_returns
    y y_pred p_pred n_classes n_thresh_steps :
  length y = length y_pred ->
  length p_pred = length y ->
  Forall (fun row => row <> []) p_pred ->
  (1 <= match n_classes with Some n => n | None => n_classes_of y end)%nat ->
  (exists a, In (a, a) (combine y y_pred)) ->
  (exists a b, a <> b /\ In (a, b) (combine y y_pred)) ->
  exists r,
    confidence_trajectories y y_pred p_pred n_classes n_thresh_steps = Ok r /\
    (length (ct_conf_correct r) + length (ct_conf_false r))%nat = length y /\
    length (ct_conf_thresholds r) = n_thresh_steps /\
    length (ct_avg_conf_correct r) = n_thresh_steps /\
    length (ct_avg_conf_false r) = n_thresh_steps.
Proof.
  intros Hlen Hp Hrows Hn (a & Hsame) (a1 & b1 & Hneq & Hdiff).
  unfold confidence_trajectories.
  set (n := match n_classes with Some n => n | None => n_classes_of y end) in *.
  rewrite equal_same_length by exact Hlen. cbn [bind].
  set (pc := map (fun ab => (fst ab =? snd ab)%Z) (combine y y_pred)).
  assert (Lpc : length pc = length y).
  { unfold pc. rewrite length_map, length_combine. lia. }
  destruct (rows_total _ Hrows) as (yp & p_max & _ & -> & _ & Lpm). cbn [bind].
  assert (Sc := mask_select_same_length p_max pc ltac:(lia)).
  assert (Sf := mask_select_same_length p_max (np.invert pc)
                  ltac:(unfold np.invert; rewrite length_map; lia)).
  rewrite Sc, Sf. cbn [bind].
  set (sel_correct := map fst (filter snd (combine p_max pc))) in *.
  set (sel_false := map fst (filter snd (combine p_max (np.invert pc)))) in *.
  rewrite truediv_nonzero by now apply of_nat_nonzero.
  cbn [bind].
  assert (Hc : np.sort sel_correct <> []).
  { intros E. apply (f_equal (@length Q)) in E. rewrite sort_length in E.
    apply (mask_select_nonempty _ _ _ Sc).
    - apply in_map_iff. exists (a, a). split; [apply Z.eqb_refl | exact Hsame].
    - now apply length_zero_iff_nil. }
  assert (Hf : np.sort sel_false <> []).
  { intros E. apply (f_equal (@length Q)) in E. rewrite sort_length in E.
    apply (mask_select_nonempty _ _ _ Sf).
    - unfold np.invert. apply in_map_iff. exists false. split; [reflexivity|].
      apply in_map_iff. exists (a1, b1). split; [|exact Hdiff].
      simpl. now apply Z.eqb_neq.
    - now apply length_zero_iff_nil. }
  destruct (trajectory_total _ (np.linspace (1 / of_nat n) 1 n_thresh_steps) Hc)
    as (mc & ac & Mc & Tc & Lc).
  destruct (trajectory_total _ (np.linspace (1 / of_nat n) 1 n_thresh_steps) Hf)
    as (mf & af & Mf & Tf & Lf).
  rewrite Mc. cbn [bind]. rewrite Mf. cbn [bind].
  rewrite Tc. cbn [bind]. rewrite Tf. cbn [bind].
  eexists. split; [reflexivity|].
  cbn [ct_conf_correct ct_conf_false ct_conf_thresholds
       ct_avg_conf_correct ct_avg_conf_false].
  rewrite linspace_length in *. repeat split; auto.
  rewrite !sort_length. unfold sel_correct, sel_false. rewrite !length_map.
  rewrite mask_partition_length by lia. lia.
Qed.

Lemma confidence_trajectories_returns_witness :
  exists r,
    confidence_trajectories [0; 1; 1]%Z [0; 0; 1]%Z
      [[9 # 10; 1 # 10]; [8 # 10; 2 # 10]; [4 # 10; 6 # 10]] None 4 = Ok r /\
    length (ct_avg_conf_correct r) = 4%nat /\
    length (ct_avg_conf_false r) = 4%nat.
Proof.
  destruct (confidence_trajectories_returns
              [0; 1; 1]%Z [0; 0; 1]%Z
              [[9 # 10; 1 # 10]; [8 # 10; 2 # 10]; [4 # 10; 6 # 10]] None 4)
    as (r & Hr & _ & _ & H1 & H2).
  - reflexivity.
  - reflexivity.
  - repeat constructor; discriminate.
  - vm_compute. lia.
  - exists 0%Z. simpl. tauto.
  - exists 1%Z, 0%Z. split; [discriminate | simpl; tauto].
  - exists r. auto.
Defined.

(** ** confidence_trajectories: where the values lie *)

Lemma sum_from (l : list Q) (acc : Q) :
  fold_left Qplus l acc == acc + np.sum l.
Proof.
  unfold np.sum. revert acc. induction l as [|x r IH]; intros acc; simpl.
  - ring.
  - rewrite IH, (IH (0 + x)). ring.
Qed.

Lemma of_nat_S (n : nat) : of_nat (S n) == of_nat n + 1.
Proof.
  unfold of_nat. rewrite Nat2Z.inj_succ, <- Z.add_1_r, inject_Z_plus. reflexivity.
Qed.

Lemma sum_bounds (l : list Q) (a b : Q) :
  Forall (fun x => a <= x <= b) l ->
  of_nat (length l) * a <= np.sum l <= of_nat (length l) * b.
Proof.
  induction 1 as [|x r [Hax Hxb] _ [IH1 IH2]].
  - unfold np.sum. cbn [fold_left length]. change (of_nat 0) with 0.
    split; Lqa.lra.
  - unfold np.sum. cbn [fold_left length]. rewrite sum_from, of_nat_S.
    split; Lqa.lra.
Qed.

(** The mean of a non-empty list lies between any bounds of its entries. *)
Lemma mean_bounds (l : list Q) (a b : Q) :
  l <> [] -> Forall (fun x => a <= x <= b) l ->
  a <= np.sum l / of_nat (length l) <= b.
Proof.
  intros Hne H. destruct (sum_bounds l a b H) as [H1 H2].
  assert (Hpos : 0 < of_nat (length l)).
  { apply of_nat_pos. destruct l; [congruence | simpl; lia]. }
  split.
  - apply Qle_shift_div_l; [exact Hpos|]. now rewrite Qmult_comm.
  - apply Qle_shift_div_r; [exact Hpos|]. now rewrite Qmult_comm.
Qed.

Lemma max_greatest (l : list Q) (m : Q) :
  np.max l = Ok m -> In m l /\ Forall (fun x => x <= m) l.
Proof.
  intros Hm.
  destruct (argmax_max_total l) as (k & m' & Hk & Hm').
  { destruct l; [discriminate | discriminate]. }
  rewrite Hm in Hm'. injection Hm' as <-.
  destruct (argmax_split l k m Hk Hm) as (A & B & -> & _ & HA & HB).
  split; [apply in_elt|].
  apply Forall_app. split.
  - eapply Forall_impl; [|exact HA]. simpl. intros x Hx. now apply Qlt_le_weak.
  - constructor; [apply Qle_refl | exact HB].
Qed.

Lemma StronglySorted_app_head (A : list Q) (c : Q) (X : list Q) :
  StronglySorted Qle (A ++ c :: X) -> Forall (fun x => x <= c) A.
Proof.
  induction A as [|a A IH]; simpl; intros H; [constructor|].
  apply StronglySorted_inv in H. destruct H as [Hs Ha]. constructor; auto.
  rewrite Forall_forall in Ha. apply Ha. apply in_elt.
Qed.

Lemma within_confidences_entry (conf : list Q) (t : Q) (k : nat) (v : float64) :
  StronglySorted Qle conf ->
  index_of_max_element_below_thresh conf t = Ok k ->
  nth_error (cummean conf) k = Some v ->
  within_confidences conf t (Some v).
Proof.
  intros Hs Hk Hv v' Hv'. injection Hv' as <-.
  assert (Hlt : (k < length conf)%nat).
  { rewrite <- cummean_length. apply nth_error_Some. congruence. }
  destruct (nth_error conf k) as [c|] eqn:Ec;
    [|apply nth_error_None in Ec; lia].
  destruct (nth_error_split _ _ Ec) as (A & X & Hdec & HlenA).
  destruct (np.min conf) as [lo|e] eqn:Hmin;
    [|destruct conf; [simpl in Hlt; lia | discriminate]].
  destruct (np.max conf) as [hi|e] eqn:Hmax;
    [|destruct conf; [simpl in Hlt; lia | discriminate]].
  pose proof (min_least _ _ Hmin) as [_ Hlo].
  pose proof (max_greatest _ _ Hmax) as [_ Hhi].
  assert (Hq : v = Fin (np.sum (A ++ [c]) / of_nat (S (length A)))).
  { rewrite Hdec, <- HlenA, cummean_nth in Hv. now injection Hv. }
  assert (Hin : forall x, In x (A ++ [c]) -> In x conf).
  { intros x Hx. rewrite Hdec. apply in_app_iff in Hx. apply in_app_iff.
    destruct Hx as [Hx|[<-|[]]]; [left; auto | right; simpl; auto]. }
  assert (Hmean : lo <= np.sum (A ++ [c]) / of_nat (S (length A)) <= c).
  { replace (S (length A)) with (length (A ++ [c]))
      by (rewrite length_app; simpl; lia).
    apply mean_bounds; [now destruct A|].
    apply Forall_forall. intros x Hx. split.
    - rewrite Forall_forall in Hlo. auto.
    - apply in_app_iff in Hx. destruct Hx as [Hx|[<-|[]]]; [|apply Qle_refl].
      rewrite Hdec in Hs. apply StronglySorted_app_head in Hs.
      rewrite Forall_forall in Hs. auto. }
  assert (Hc : c <= hi).
  { rewrite Forall_forall in Hhi. apply Hhi. rewrite Hdec. apply in_elt. }
  exists (np.sum (A ++ [c]) / of_nat (S (length A))), lo, hi.
  split; [exact Hq|]. split; [reflexivity|]. split; [reflexivity|].
  split; [split; [apply Hmean | apply Qle_trans with c; [apply Hmean | exact Hc]]|].
  intros (c' & Hin' & Hct).
  apply Qle_trans with c; [apply Hmean|].
  unfold index_of_max_element_below_thresh in Hk. rewrite Hmin in Hk.
  cbn [bind] in Hk.
  assert (E : Qlt_bool t lo = false).
  { apply Qlt_bool_false_iff. rewrite Forall_forall in Hlo.
    apply Qle_trans with c'; auto. }
  rewrite E in Hk.
  destruct (argmax_Ok_max _ _ Hk) as [m Hm].
  destruct (argmax_split _ _ _ Hk Hm) as (A' & B & Heq & Hlen' & _ & _).
  pose proof (sorted_filter_prefix t conf Hs) as Hconf.
  rewrite Heq, <- app_assoc in Hconf. simpl in Hconf.
  assert (Ecm : nth_error conf k = Some m).
  { rewrite Hconf, <- Hlen', nth_error_app2, Nat.sub_diag by lia. reflexivity. }
  rewrite Ec in Ecm. injection Ecm as ->.
  assert (Hsel : In m (filter (fun e => Qle_bool e t) conf)).
  { rewrite Heq. apply in_elt. }
  apply filter_In in Hsel. destruct Hsel as [_ Hsel]. now apply Qle_bool_iff.
Qed.

(** X6.  Every trajectory value is a finite number between the smallest
    and the largest confidence of its array, and it is not above its
    threshold as soon as one confidence of the array is not above it. *)
Theorem trajectory_values_within_confidences
    y y_pred p_pred n_classes n_thresh_steps r :
  confidence_trajectories y y_pred p_pred n_classes n_thresh_steps = Ok r ->
  forall i t, nth_error (ct_conf_thresholds r) i = Some t ->
    within_confidences (ct_conf_correct r) t (nth_error (ct_avg_conf_correct r) i) /\
    within_confidences (ct_conf_false r) t (nth_error (ct_avg_conf_false r) i).
Proof.
  intros H i t Hi.
  apply confidence_trajectories_Ok in H.
  destruct H as (pc & pm & sc & sf & floor & _ & _ & _ & _ & Hcc & Hcf & _ & _ & _
                 & Hmc & Hmf & Hac & Haf).
  split.
  - destruct (trajectory_entry _ _ _ _ _ _ Hmc Hac Hi) as (k & v & Hk & _ & Hv & ->).
    apply (within_confidences_entry _ _ k); auto.
    rewrite Hcc. apply sort_sorted.
  - destruct (trajectory_entry _ _ _ _ _ _ Hmf Haf Hi) as (k & v & Hk & _ & Hv & ->).
    apply (within_confidences_entry _ _ k); auto.
    rewrite Hcf. apply sort_sorted.
Qed.

Lemma trajectory_values_within_confidences_witness :
  exists r q,
    confidence_trajectories [0; 0; 0; 1]%Z [0; 0; 0; 0]%Z
      [[6 # 10; 4 # 10]; [8 # 10; 2 # 10]; [9 # 10; 1 # 10]; [7 # 10; 3 # 10]]
      None 3 = Ok r /\
    nth_error (ct_avg_conf_correct r) 1 = Some (Fin q) /\
    6 # 10 <= q <= 9 # 10 /\ q <= 3 # 4.
Proof.
  destruct (confidence_trajectories [0; 0; 0; 1]%Z [0; 0; 0; 0]%Z
      [[6 # 10; 4 # 10]; [8 # 10; 2 # 10]; [9 # 10; 1 # 10]; [7 # 10; 3 # 10]]
      None 3) as [r|e] eqn:E; [|vm_compute in E; discriminate].
  pose proof (trajectory_values_within_confidences _ _ _ _ _ _ E 1%nat) as H.
  assert (Hr := E). vm_compute in Hr. injection Hr as Hr.
  rewrite <- Hr in H.
  destruct (H _ eq_refl) as [Hc _].
  destruct (Hc _ eq_refl) as (q & lo & hi & Hq & Hlo & Hhi & Hb & Ht).
  vm_compute in Hlo. injection Hlo as <-.
  vm_compute in Hhi. injection Hhi as <-.
  exists r, q. split; [reflexivity|].
  split; [rewrite <- Hr; cbn; now f_equal|].
  split; [exact Hb|].
  eapply Qle_trans; [apply Ht|by_computation].
  exists (6 # 10). split; [simpl; tauto | by_computation].
Defined.

(** ** reliability_diagram: accuracies, counts and shading *)

(** The entry of a populated bin, as [reliability_diagram] leaves it. *)
Lemma empirical_acc_populated y p_pred n_bins xlim r i :
  length p_pred = length y ->
  reliability_diagram y p_pred n_bins xlim = Ok r ->
  fst (rd_xlim r) < snd (rd_xlim r) ->
  (i < n_bins)%nat ->
  let members := bin_samples (fst (rd_xlim r)) (snd (rd_xlim r)) n_bins i p_pred y in
  members <> [] ->
  nth_error (rd_empirical_acc r) i
  = Some (Fin (np.sum (map hit members) / of_nat (length members))).
Proof.
  intros Hlen H Hlt Hi.
  apply reliability_diagram_Ok in H.
  destruct H as (lim & y_pred & p_max & half & correct & acc & hist
                 & _ & Hy & Hp & _ & Hc & Hacc & _ & ->).
  destruct lim as [lo hi].
  cbn [rd_xlim rd_empirical_acc fst snd] in *.
  set (members := bin_samples lo hi n_bins i p_pred y).
  intros Hne.
  apply (mapM_Ok_map _ 0%nat) in Hy. apply (mapM_Ok_map _ 0) in Hp.
  change (p_max = map row_confidence p_pred) in Hp.
  subst y_pred p_max.
  rewrite equal_same_length in Hc by (rewrite !length_map; exact Hlen).
  injection Hc as <-.
  pose proof (binned_accuracy_nth _ _ _ i _ _ _ Hlen Hlt Hi Hacc) as Hnth.
  cbv zeta in Hnth. fold members in Hnth. rewrite length_map in Hnth.
  set (bin_means := np.linspace (lo + half) (hi - half) n_bins).
  destruct (nth_error bin_means i) as [m|] eqn:Em.
  - pose proof (fill_nan_nth _ _ _ _ _ Hnth Em) as Hfill.
    destruct members as [|s ms]; [congruence|].
    cbn [length Nat.eqb isnan] in Hfill. exact Hfill.
  - apply nth_error_None in Em. unfold bin_means in Em.
    rewrite linspace_length in Em. lia.
Qed.

Lemma hit_unit (s : list Q * Z) : 0 <= hit s <= 1.
Proof.
  unfold hit. destruct (row_label (fst s) =? snd s)%Z; split; by_computation.
Qed.

(** X7.  The empirical accuracy of every populated bin is a finite number
    in [[0, 1]]. *)
Theorem empirical_accuracy_in_unit_interval y p_pred n_bins xlim r :
  length p_pred = length y ->
  reliability_diagram y p_pred n_bins xlim = Ok r ->
  fst (rd_xlim r) < snd (rd_xlim r) ->
  forall i, (i < n_bins)%nat ->
    bin_samples (fst (rd_xlim r)) (snd (rd_xlim r)) n_bins i p_pred y <> [] ->
    exists q, nth_error (rd_empirical_acc r) i = Some (Fin q) /\ 0 <= q <= 1.
Proof.
  intros Hlen H Hlt i Hi Hne.
  pose proof (empirical_acc_populated _ _ _ _ _ i Hlen H Hlt Hi Hne) as Hacc.
  cbv zeta in Hacc. eexists. split; [exact Hacc|].
  rewrite <- (length_map hit). apply mean_bounds.
  - intros E. apply map_eq_nil in E. contradiction.
  - apply Forall_forall. intros x Hx. apply in_map_iff in Hx.
    destruct Hx as (s & <- & _). apply hit_unit.
Qed.

Lemma empirical_accuracy_in_unit_interval_witness :
  exists r q,
    reliability_diagram [0; 1; 1]%Z
      [[1 # 10; 9 # 10]; [2 # 10; 8 # 10]; [3 # 10; 7 # 10]] 2 None = Ok r /\
    nth_error (rd_empirical_acc r) 0 = Some (Fin q) /\ 0 <= q <= 1.
Proof.
  destruct (reliability_diagram [0; 1; 1]%Z
      [[1 # 10; 9 # 10]; [2 # 10; 8 # 10]; [3 # 10; 7 # 10]] 2 None)
    as [r|e] eqn:E; [|vm_compute in E; discriminate].
  assert (Hr := E). vm_compute in Hr. injection Hr as Hr.
  assert (Hx : rd_xlim r = (1 # 2, 1)) by now rewrite <- Hr.
  destruct (empirical_accuracy_in_unit_interval
              [0; 1; 1]%Z [[1 # 10; 9 # 10]; [2 # 10; 8 # 10]; [3 # 10; 7 # 10]]
              2 None r eq_refl E) with (i := 0%nat) as (q & Hq & Hb).
  - rewrite Hx. reflexivity.
  - lia.
  - rewrite Hx. vm_compute. discriminate.
  - exists r, q. auto.
Defined.

(** *** Histogram counts *)

Lemma count_between (a : list Q) (v w : Q) :
  v <= w ->
  (np.count_lt a w - np.count_lt a v)%Z
  = Z.of_nat (length (filter (fun x => Qle_bool v x && Qlt_bool x w) a)) /\
  (np.count_le a w - np.count_lt a v)%Z
  = Z.of_nat (length (filter (fun x => Qle_bool v x && Qle_bool x w) a)).
Proof.
  intros Hvw. unfold np.count_lt, np.count_le, Qlt_bool.
  induction a as [|x r [IH1 IH2]]; [split; reflexivity|].
  cbn [filter].
  destruct (Qle_bool v x) eqn:E1, (Qle_bool w x) eqn:E2, (Qle_bool x w) eqn:E3;
    cbn [negb andb length];
    try (split; lia);
    exfalso;
    repeat match goal with
           | H : Qle_bool _ _ = true |- _ => apply Qle_bool_iff in H
           | H : Qle_bool _ _ = false |- _ => apply Qle_bool_false_iff in H
           end;
    Lqa.lra.
Qed.







Lemma filter_map_length {A B : Type} (f : B -> bool) (g : A -> B) (l : list A) :
  length (filter f (map g l)) = length (filter (fun a => f (g a)) l).
Proof.
  induction l as [|x l IH]; simpl; [reflexivity|].
  destruct (f (g x)); simpl; now rewrite IH.
Qed.



(** *** Sample fractions *)

Lemma sum_cons (x : Q) (l : list Q) : np.sum (x :: l) == x + np.sum l.
Proof.
  unfold np.sum at 1. cbn [fold_left]. rewrite sum_from. ring.
Qed.

Lemma sumZ_cons (x : Z) (l : list Z) : np.sumZ (x :: l) = (x + np.sumZ l)%Z.
Proof.
  unfold np.sumZ at 1. cbn [fold_left]. rewrite fold_left_Zadd. lia.
Qed.

Lemma sumZ_nonneg (l : list Z) :
  Forall (fun c => (0 <= c)%Z) l ->
  (0 <= np.sumZ l)%Z /\ Forall (fun c => (c <= np.sumZ l)%Z) l.
Proof.
  induction 1 as [|x r Hx _ [IH1 IH2]].
  - split; [reflexivity | constructor].
  - rewrite sumZ_cons. split; [lia|].
    constructor; [lia|].
    eapply Forall_impl; [|exact IH2]. simpl. intros c Hc. lia.
Qed.

(** Counts that are not negative and not all zero: the fractions are
    finite, lie in [[0, 1]] and sum to 1. *)
Lemma fractions_of_counts (hist : list Z) :
  Forall (fun c => (0 <= c)%Z) hist -> (0 < np.sumZ hist)%Z ->
  exists qs,
    np.divide_counts hist (np.sumZ hist) = map Fin qs /\
    Forall (fun q => 0 <= q <= 1) qs /\
    np.sum qs == 1.
Proof.
  intros Hpos Htot.
  set (total := np.sumZ hist) in *.
  assert (Hq : 0 < inject_Z total) by (change 0 with (inject_Z 0); now rewrite <- Zlt_Qlt).
  assert (Hnz : ~ inject_Z total == 0).
  { intros H. rewrite H in Hq. now apply Qlt_irrefl in Hq. }
  assert (Hz : Qeq_bool (inject_Z total) 0 = false) by now apply Qeq_bool_false_iff.
  exists (map (fun c => inject_Z c / inject_Z total) hist).
  split; [|split].
  - unfold np.divide_counts. rewrite map_map. apply map_ext. intros c.
    unfold np.true_divide. now rewrite Hz.
  - destruct (sumZ_nonneg _ Hpos) as [_ Hle]. fold total in Hle.
    apply Forall_map. rewrite Forall_forall in *. intros c Hc.
    specialize (Hpos _ Hc). specialize (Hle _ Hc). split.
    + apply Qle_shift_div_l; [exact Hq|]. rewrite Qmult_0_l.
      change 0 with (inject_Z 0). now rewrite <- Zle_Qle.
    + apply Qle_shift_div_r; [exact Hq|]. rewrite Qmult_1_l.
      now rewrite <- Zle_Qle.
  - assert (Hsum : forall l, np.sum (map (fun c => inject_Z c / inject_Z total) l)
                        == inject_Z (np.sumZ l) / inject_Z total).
    { induction l as [|x l IH].
      - unfold np.sum, np.sumZ. simpl. field. exact Hnz.
      - cbn [map]. rewrite sum_cons, sumZ_cons, IH, inject_Z_plus.
        field. exact Hnz. }
    rewrite Hsum. fold total. field. exact Hnz.
Qed.

(** The counts of a histogram over a proper range sum to the number of
    samples within the range. *)
Lemma histogram_range_total (a : list Q) (lo hi : Q) (n : nat) (hist : list Z) :
  lo < hi -> (1 <= n)%nat ->
  np.histogram a (np.linspace lo hi (S n)) = Ok hist ->
  np.sumZ hist
  = Z.of_nat (length (filter (fun x => Qle_bool lo x && Qle_bool x hi) a)).
Proof.
  intros Hlt Hn H. destruct n as [|d]; [lia|].
  pose proof (linspace_last lo hi d) as Hlast.
  pose proof (linspace_nth lo hi d 0 ltac:(lia)) as Hfirst.
  pose proof (linspace_length lo hi (S (S d))) as Hlen.
  remember (np.linspace lo hi (S (S d))) as edges eqn:He. clear He.
  unfold np.histogram in H.
  destruct (np.monotone edges); [|discriminate].
  injection H as <-.
  destruct edges as [|v [|w r]]; simpl in Hlen; try lia.
  simpl nth in Hfirst.
  assert (Hv : v == lo).
  { rewrite Hfirst. change (of_nat 0) with 0. field. apply of_nat_S_nonzero. }
  assert (Hs : np.search_sorted_inclusive a (v :: w :: r)
               = np.count_lt a v :: np.search_sorted_inclusive a (w :: r))
    by reflexivity.
  rewrite Hs, sumZ_diff, <- Hs, search_sorted_last, Hlast.
  destruct (count_between a v hi) as [_ C].
  { rewrite Hv. now apply Qlt_le_weak. }
  rewrite C. do 2 f_equal. apply filter_ext. intros x. now rewrite Hv.
Qed.

(** X9.  On a proper range the counts of the histogram panel sum to the
    number of samples whose confidence lies within the range; when there
    is such a sample, the plotted sample fractions are finite numbers in
    [[0, 1]] that sum to 1. *)
Theorem sample_fractions_sum_to_one y p_pred n_bins xlim r :
  reliability_diagram y p_pred n_bins xlim = Ok r ->
  fst (rd_xlim r) < snd (rd_xlim r) ->
  let in_range :=
    filter (fun row => Qle_bool (fst (rd_xlim r)) (row_confidence row) &&
                       Qle_bool (row_confidence row) (snd (rd_xlim r))) p_pred in
  np.sumZ (rd_hist r) = Z.of_nat (length in_range) /\
  (in_range <> [] ->
   exists qs, rd_hist_fraction r = map Fin qs /\
              Forall (fun q => 0 <= q <= 1) qs /\
              np.sum qs == 1).
Proof.
  intros H Hlt in_range.
  apply reliability_diagram_Ok in H.
  destruct H as (lim & y_pred & p_max & half & correct & acc & hist
                 & _ & _ & Hp & Hhalf & _ & _ & Hh & ->).
  destruct lim as [lo hi]. cbn [rd_xlim rd_hist rd_hist_fraction fst snd] in *.
  apply max_rows_confidence in Hp. subst p_max.
  assert (Hn : (1 <= n_bins)%nat).
  { destruct n_bins; [discriminate | lia]. }
  rewrite Nat.add_1_r in Hh.
  assert (Htot : np.sumZ hist = Z.of_nat (length in_range)).
  { rewrite (histogram_range_total _ _ _ _ _ Hlt Hn Hh).
    unfold in_range. now rewrite filter_map_length. }
  split; [exact Htot|].
  intros Hne. apply fractions_of_counts.
  - eapply histogram_nonneg; eauto.
  - rewrite Htot. destruct in_range; [congruence | simpl; lia].
Qed.

Lemma sample_fractions_sum_to_one_witness :
  exists r qs,
    reliability_diagram [0; 1; 1]%Z
      [[1 # 10; 9 # 10]; [2 # 10; 8 # 10]; [3 # 10; 7 # 10]] 2 None = Ok r /\
    np.sumZ (rd_hist r) = 3%Z /\
    rd_hist_fraction r = map Fin qs /\
    np.sum qs == 1.
Proof.
  destruct (reliability_diagram [0; 1; 1]%Z
      [[1 # 10; 9 # 10]; [2 # 10; 8 # 10]; [3 # 10; 7 # 10]] 2 None)
    as [r|e] eqn:E; [|vm_compute in E; discriminate].
  assert (Hr := E). vm_compute in Hr. injection Hr as Hr.
  assert (Hx : rd_xlim r = (1 # 2, 1)) by now rewrite <- Hr.
  pose proof (sample_fractions_sum_to_one _ _ _ _ _ E) as H.
  rewrite Hx in H. cbn [fst snd] in H.
  destruct (H eq_refl) as [Htot Hfrac].
  destruct Hfrac as (qs & Hq & _ & Hs); [vm_compute; discriminate|].
  exists r, qs. split; [reflexivity|]. split; [|auto].
  rewrite Htot. reflexivity.
Defined.

(** *** The shaded area *)

Lemma removelast_map_eq {A B : Type} (f : A -> B) (l : list A) :
  removelast (map f l) = map f (removelast l).
Proof.
  induction l as [|b t IH]; [reflexivity|].
  destruct t as [|c t]; [reflexivity|].
  cbn [map].
  change (removelast (f b :: f c :: map f t))
    with (f b :: removelast (f c :: map f t)).
  change (removelast (b :: c :: t)) with (b :: removelast (c :: t)).
  cbn [map]. f_equal. exact IH.
Qed.

Lemma inner_map {A B : Type} (f : A -> B) (l : list A) :
  inner (map f l) = map f (inner l).
Proof.
  unfold inner. now rewrite tl_map, removelast_map_eq.
Qed.

Lemma In_removelast (l : list Q) (v : Q) :
  In v (removelast l) -> exists j, (S j < length l)%nat /\ nth j l 0 = v.
Proof.
  induction l as [|b t IH]; [contradiction|].
  destruct t as [|c t]; [contradiction|].
  change (removelast (b :: c :: t)) with (b :: removelast (c :: t)).
  intros [<-|Hin].
  - exists 0%nat. split; [simpl; lia | reflexivity].
  - destruct (IH Hin) as (j & Hj & Hn).
    exists (S j). split; [simpl in *; lia | exact Hn].
Qed.

(** The samples of [np.linspace] other than the first and the last lie
    strictly between the limits. *)
Lemma inner_linspace (lo hi : Q) (num : nat) (v : Q) :
  lo < hi -> In v (inner (np.linspace lo hi num)) -> lo < v < hi.
Proof.
  intros Hlt Hin.
  pose proof (linspace_increasing lo hi num Hlt) as Hinc.
  pose proof (linspace_length lo hi num) as Hlen.
  destruct num as [|[|d]]; [contradiction | contradiction |].
  pose proof (linspace_nth lo hi d 0 ltac:(lia)) as H0.
  pose proof (linspace_nth lo hi d (S d) ltac:(lia)) as Hd.
  remember (np.linspace lo hi (S (S d))) as l eqn:El. clear El.
  destruct l as [|a t]; [contradiction|].
  unfold inner in Hin. cbn [tl] in Hin.
  destruct (In_removelast _ _ Hin) as (j & Hj & <-).
  simpl in Hlen.
  assert (H1 : nth 0 (a :: t) 0 < nth (S j) (a :: t) 0) by (apply Hinc; simpl; lia).
  assert (H2 : nth (S j) (a :: t) 0 < nth (S d) (a :: t) 0) by (apply Hinc; simpl; lia).
  change (nth (S j) (a :: t) 0) with (nth j t 0) in *.
  rewrite H0 in H1. rewrite Hd in H2.
  assert (Hnz := of_nat_S_nonzero d).
  setoid_replace (lo + of_nat 0 * (hi - lo) / of_nat (S d)) with lo in H1
    by (change (of_nat 0) with 0; field; exact Hnz).
  setoid_replace (lo + of_nat (S d) * (hi - lo) / of_nat (S d)) with hi in H2
    by (field; exact Hnz).
  split; assumption.
Qed.

Lemma inner_length {A : Type} (l : list A) :
  length (inner l) = Nat.pred (Nat.pred (length l)).
Proof.
  unfold inner. destruct l as [|a t]; [reflexivity|]. cbn [tl length Nat.pred].
  induction t as [|b t IH]; [reflexivity|].
  destruct t as [|c t]; [reflexivity|].
  change (removelast (b :: c :: t)) with (b :: removelast (c :: t)).
  cbn [length] in *. rewrite IH. reflexivity.
Qed.

Lemma binned_statistic_length (x values : list Q) (n : nat) (lim : Q * Q) acc :
  scipy_stats.binned_statistic x values n lim = Ok acc -> length acc = n.
Proof.
  unfold scipy_stats.binned_statistic.
  destruct (negb _); [discriminate|].
  destruct (scipy_stats.bin_edges n lim); cbn [bind]; [|discriminate].
  destruct (np.min _); cbn [bind]; [|discriminate].
  destruct (Qeq_bool _ 0); [discriminate|].
  intros H; injection H as <-. now rewrite length_map, length_seq.
Qed.

(** X10.  The arrays handed to the accuracy panel fit together: there is
    one more edge than there are accuracies, so that the step line prefixed
    with [xlim[0]] has the length of [bins], and on a proper range each of
    the 998 positions [bin_ind] at which the per-bin arrays are read for
    the shaded area is a valid index, from 0 to [n_bins - 1]. *)
Theorem shading_indices_within_bins y p_pred n_bins xlim r :
  reliability_diagram y p_pred n_bins xlim = Ok r ->
  fst (rd_xlim r) < snd (rd_xlim r) ->
  length (rd_empirical_acc r) = n_bins /\
  length (rd_bin_means r) = n_bins /\
  length (rd_bins r) = S (length (rd_empirical_acc r)) /\
  length (fill_between_bin_ind (rd_xlim r) n_bins) = 998%nat /\
  Forall (fun k => (0 <= k < Z.of_nat (length (rd_empirical_acc r)))%Z)
         (fill_between_bin_ind (rd_xlim r) n_bins).
Proof.
  intros H Hlt.
  apply reliability_diagram_Ok in H.
  destruct H as (lim & y_pred & p_max & half & correct & acc & hist
                 & _ & _ & _ & Hhalf & _ & Hacc & _ & ->).
  destruct lim as [lo hi].
  cbn [rd_xlim rd_empirical_acc rd_bin_means rd_bins fst snd] in *.
  assert (Hn : (1 <= n_bins)%nat).
  { destruct n_bins; [discriminate | lia]. }
  apply binned_statistic_length in Hacc.
  assert (Hfill : length (fill_nan acc (np.linspace (lo + half) (hi - half) n_bins))
                  = n_bins).
  { unfold fill_nan. rewrite length_map, length_combine, linspace_length, Hacc.
    apply Nat.min_id. }
  rewrite Hfill, !linspace_length.
  split; [reflexivity|]. split; [reflexivity|]. split; [lia|].
  unfold fill_between_bin_ind, fill_between_x. cbn [fst snd].
  rewrite Nat.add_1_r, inner_map.
  split.
  - rewrite !length_map, inner_length, linspace_length. reflexivity.
  - apply Forall_map, Forall_map. apply Forall_forall. intros v Hv.
    apply inner_linspace in Hv; [|exact Hlt]. destruct Hv as [Hlo Hhi].
    set (bins := np.linspace lo hi (S n_bins)).
    assert (Hinc : increasing bins) by now apply linspace_increasing.
    assert (Hlen : length bins = S n_bins) by apply linspace_length.
    assert (H0 : (0 < np.digitize v bins)%nat).
    { apply (digitize_index v bins Hinc 0); [lia|].
      unfold bins. rewrite linspace_edge, bin_edge_first by lia.
      now apply Qlt_le_weak. }
    assert (H1 : ~ (n_bins < np.digitize v bins)%nat).
    { intros Hc. apply (digitize_index v bins Hinc n_bins) in Hc; [|lia].
      unfold bins in Hc. rewrite linspace_edge, bin_edge_last in Hc by lia.
      eapply Qlt_not_le; eauto. }
    lia.
Qed.

Lemma shading_indices_within_bins_witness :
  exists r,
    reliability_diagram [0; 1]%Z [[1 # 10; 9 # 10]; [7 # 10; 3 # 10]] 4 None = Ok r /\
    length (rd_empirical_acc r) = 4%nat /\
    Forall (fun k => (0 <= k < 4)%Z) (fill_between_bin_ind (rd_xlim r) 4).
Proof.
  destruct (reliability_diagram [0; 1]%Z [[1 # 10; 9 # 10]; [7 # 10; 3 # 10]] 4 None)
    as [r|e] eqn:E; [|vm_compute in E; discriminate].
  assert (Hx : rd_xlim r = (1 # 2, 1)).
  { assert (Hr := E). vm_compute in Hr. injection Hr as Hr. now rewrite <- Hr. }
  destruct (shading_indices_within_bins _ _ _ _ _ E) as (Hl & _ & _ & _ & Hall).
  - rewrite Hx. reflexivity.
  - exists r. split; [reflexivity|]. split; [exact Hl|].
    rewrite Hl in Hall. exact Hall.
Defined.

(** ** confidence_diagram: the two histograms *)

Lemma not_equal_same_length (a b : list Z) :
  length a = length b ->
  np.not_equal a b
  = Ok (map (fun ab => negb (fst ab =? snd ab)%Z) (combine a b)).
Proof.
  intros H. unfold np.not_equal, np.broadcast2. now rewrite H, Nat.eqb_refl.
Qed.

Lemma mask_count {A : Type} (a : list A) (m : list bool) :
  length a = length m ->
  length (filter snd (combine a m)) = length (filter (fun b : bool => b) m).
Proof.
  revert m. induction a as [|x a IH]; intros [|b m] Hlen; simpl in *; try lia.
  destruct b; simpl; rewrite IH by lia; reflexivity.
Qed.

Lemma filter_complement_length {A : Type} (f : A -> bool) (l : list A) :
  (length (filter f l) + length (filter (fun x => negb (f x)) l))%nat = length l.
Proof.
  induction l as [|x l IH]; simpl; [reflexivity|].
  destruct (f x); simpl; lia.
Qed.

Lemma confidence_diagram_hist_Ok y y_pred p_pred n_classes n_bins r :
  confidence_diagram y y_pred p_pred n_classes n_bins = Ok r ->
  exists p_max wrong right conf_false conf_correct,
    np.max_rows p_pred = Ok p_max /\
    np.not_equal y y_pred = Ok wrong /\
    np.mask_select p_max wrong = Ok conf_false /\
    np.histogram conf_false (np.linspace 0 1 (n_bins + 1)) = Ok (cd_hist_false r) /\
    np.equal y y_pred = Ok right /\
    np.mask_select p_max right = Ok conf_correct /\
    np.histogram conf_correct (np.linspace 0 1 (n_bins + 1)) = Ok (cd_hist_correct r).
Proof.
  unfold confidence_diagram. intros H.
  inv_bind H. inv_bind H. inv_bind H. inv_bind H. inv_bind H. inv_bind H.
  inv_bind H. inv_bind H.
  inversion H; subst. simpl.
  do 5 eexists. repeat split; eauto.
Qed.

(** X11.  With equally many labels and predictions, all confidences in
    [[0, 1]] and at least one bin, the counts of the upper histogram of
    [confidence_diagram] sum to the number of false predictions, those of
    the lower one to the number of correct predictions, and together they
    count every sample once. *)
Theorem confidence_diagram_counts_every_sample
    y y_pred p_pred n_classes n_bins r :
  length y = length y_pred ->
  Forall (fun row => 0 <= row_confidence row <= 1) p_pred ->
  (1 <= n_bins)%nat ->
  confidence_diagram y y_pred p_pred n_classes n_bins = Ok r ->
  let correct := fun ab : Z * Z => (fst ab =? snd ab)%Z in
  np.sumZ (cd_hist_false r)
  = Z.of_nat (length (filter (fun ab => negb (correct ab)) (combine y y_pred))) /\
  np.sumZ (cd_hist_correct r)
  = Z.of_nat (length (filter correct (combine y y_pred))) /\
  (np.sumZ (cd_hist_false r) + np.sumZ (cd_hist_correct r))%Z
  = Z.of_nat (length y).
Proof.
  intros Hlen Hconf Hn H correct.
  apply confidence_diagram_hist_Ok in H.
  destruct H as (p_max & wrong & right & cf & cc & Hmax & Hw & Hsf & Hhf & Hr & Hsc & Hhc).
  rewrite not_equal_same_length in Hw by exact Hlen. injection Hw as <-.
  rewrite equal_same_length in Hr by exact Hlen. injection Hr as <-.
  apply max_rows_confidence in Hmax. subst p_max.
  assert (Hin01 : forall l m, np.mask_select (map row_confidence p_pred) m = Ok l ->
                         Forall (fun x => 0 <= x <= 1) l).
  { intros l m Hl. apply Forall_forall. intros x Hx.
    apply (mask_select_In _ _ _ Hl) in Hx. apply in_map_iff in Hx.
    destruct Hx as (row & <- & Hrow).
    rewrite Forall_forall in Hconf. now apply Hconf. }
  assert (Hcount : forall (f : Z * Z -> bool) l hist,
             np.mask_select (map row_confidence p_pred) (map f (combine y y_pred)) = Ok l ->
             np.histogram l (np.linspace 0 1 (n_bins + 1)) = Ok hist ->
             np.sumZ hist = Z.of_nat (length (filter f (combine y y_pred)))).
  { intros f l hist Hl Hh.
    destruct (histogram_unit_total l (n_bins + 1) hist) as [Hsum _];
      [lia | eapply Hin01; eauto | exact Hh |].
    rewrite Hsum. f_equal.
    apply mask_select_Ok in Hl. destruct Hl as [Hll ->].
    rewrite length_map, (mask_count _ _ Hll).
    apply (filter_map_length (fun b : bool => b) f). }
  pose proof (Hcount _ _ _ Hsf Hhf) as Hf.
  pose proof (Hcount _ _ _ Hsc Hhc) as Hc.
  split; [exact Hf|]. split; [exact Hc|].
  rewrite Hf, Hc, <- Nat2Z.inj_add.
  rewrite Nat.add_comm, (filter_complement_length correct).
  rewrite length_combine. f_equal. lia.
Qed.

Lemma confidence_diagram_counts_every_sample_witness :
  exists r,
    confidence_diagram [0; 1; 1]%Z [0; 0; 1]%Z
      [[9 # 10; 1 # 10]; [8 # 10; 2 # 10]; [4 # 10; 6 # 10]] None 4 = Ok r /\
    np.sumZ (cd_hist_false r) = 1%Z /\
    np.sumZ (cd_hist_correct r) = 2%Z.
Proof.
  destruct (confidence_diagram [0; 1; 1]%Z [0; 0; 1]%Z
      [[9 # 10; 1 # 10]; [8 # 10; 2 # 10]; [4 # 10; 6 # 10]] None 4)
    as [r|e] eqn:E; [|vm_compute in E; discriminate].
  destruct (confidence_diagram_counts_every_sample
              [0; 1; 1]%Z [0; 0; 1]%Z
              [[9 # 10; 1 # 10]; [8 # 10; 2 # 10]; [4 # 10; 6 # 10]] None 4 r)
    as (Hf & Hc & _).
  - reflexivity.
  - by_computation.
  - lia.
  - exact E.
  - exists r. split; [reflexivity|]. split; [rewrite Hf | rewrite Hc]; reflexivity.
Defined.

(** ** over_underconfidence_curve: shape and values of the curves *)

Lemma histogram_unit_Ok (a : list Q) (n : nat) :
  exists hist, np.histogram a (np.linspace 0 1 n) = Ok hist /\
               length hist = Nat.pred n.
Proof.
  unfold np.histogram.
  rewrite increasing_monotone by (apply linspace_increasing; reflexivity).
  eexists. split; [reflexivity|].
  now rewrite diff_length, search_sorted_length, linspace_length.
Qed.

Lemma cumulative_fraction_length (hist : list Z) :
  length (cumulative_fraction hist) = length hist.
Proof.
  unfold cumulative_fraction, np.divide_counts, np.cumsumZ.
  now rewrite length_map, cumsumZ_from_length.
Qed.

(** X12.  [over_underconfidence_curve] returns on every sample set with
    equally many labels, predictions and non-empty probability rows,
    whatever [n_bins] is and whether or not both kinds of prediction
    occur; every confidence goes to exactly one of the two arrays, and both
    curves have [n_bins - 1] points. *)
Theorem over_underconfidence_curve_returns y y_pred p_pred n_bins :
  length y = length y_pred ->
  length p_pred = length y ->
  Forall (fun row => row <> []) p_pred ->
  exists r,
    over_underconfidence_curve y y_pred p_pred n_bins = Ok r /\
    (length (ou_conf_false r) + length (ou_conf_correct r))%nat = length y /\
    length (ou_conf_false_cum r) = Nat.pred n_bins /\
    length (ou_conf_correct_cum r) = Nat.pred n_bins.
Proof.
  intros Hlen Hp Hrows. unfold over_underconfidence_curve.
  rewrite equal_same_length by exact Hlen. cbn [bind].
  set (pc := map (fun ab => (fst ab =? snd ab)%Z) (combine y y_pred)).
  assert (Lpc : length pc = length y).
  { unfold pc. rewrite length_map, length_combine. lia. }
  destruct (rows_total _ Hrows) as (yp & p_max & _ & -> & _ & Lpm). cbn [bind].
  rewrite (mask_select_same_length p_max pc) by lia. cbn [bind].
  rewrite (mask_select_same_length p_max (np.invert pc))
    by (unfold np.invert; rewrite length_map; lia).
  cbn [bind].
  set (conf_correct := map fst (filter snd (combine p_max pc))).
  set (conf_false := map fst (filter snd (combine p_max (np.invert pc)))).
  destruct (histogram_unit_Ok conf_false n_bins) as (hf & Hf & Lf).
  destruct (histogram_unit_Ok conf_correct n_bins) as (hc & Hc & Lc).
  rewrite Hf. cbn [bind]. rewrite Hc. cbn [bind].
  eexists. split; [reflexivity|].
  cbn [ou_conf_false ou_conf_correct ou_conf_false_cum ou_conf_correct_cum].
  rewrite !cumulative_fraction_length. repeat split; auto.
  unfold conf_false, conf_correct. rewrite !length_map.
  rewrite Nat.add_comm, mask_partition_length by lia. lia.
Qed.

Lemma over_underconfidence_curve_returns_witness :
  exists r,
    over_underconfidence_curve [0; 1; 1]%Z [0; 1; 1]%Z
      [[9 # 10; 1 # 10]; [2 # 10; 8 # 10]; [4 # 10; 6 # 10]] 6 = Ok r /\
    length (ou_conf_false_cum r) = 5%nat /\
    length (ou_conf_correct_cum r) = 5%nat.
Proof.
  destruct (over_underconfidence_curve_returns
              [0; 1; 1]%Z [0; 1; 1]%Z
              [[9 # 10; 1 # 10]; [2 # 10; 8 # 10]; [4 # 10; 6 # 10]] 6)
    as (r & Hr & _ & H1 & H2).
  - reflexivity.
  - reflexivity.
  - repeat constructor; discriminate.
  - exists r. auto.
Defined.






(** ** logsumexp_illustration: how close the smooth maximum is *)

Section SmoothMaximumError.
Local Open Scope R_scope.

Lemma smooth_max_at_half (N : R) :
  0 < N -> smooth_max (1 / 2) N = 1 / 2 + ln 2 / N.
Proof.
  intros HN. rewrite smooth_max_unfold.
  replace (1 - 1 / 2) with (1 / 2) by lra.
  replace (exp (N * (1 / 2)) + (exp (N * (1 / 2)) + 0))
    with (2 * exp (N * (1 / 2))) by lra.
  rewrite ln_mult by (try apply exp_pos; lra).
  rewrite ln_exp. field. lra.
Qed.

(** X14.  For every sharpness [N > 0] and every abscissa [t], the plotted
    smooth maximum of the row [[1 - t, t]] is not below the maximum of the
    row and exceeds it by at most [ln 2 / N]; the excess is exactly
    [ln 2 / N] at [t = 1/2], where both entries are equal. *)
Theorem smooth_maximum_error_bound (t N : R) :
  0 < N ->
  0 <= smooth_max t N - Rmax (1 - t) t <= ln 2 / N /\
  smooth_max (1 / 2) N - Rmax (1 - 1 / 2) (1 / 2) = ln 2 / N.
Proof.
  intros HN. split.
  - destruct (smooth_max_bounds t N HN) as [H1 H2]. lra.
  - rewrite smooth_max_at_half by exact HN.
    replace (1 - 1 / 2) with (1 / 2) by lra.
    rewrite Rmax_left by lra. lra.
Qed.

Lemma smooth_maximum_error_bound_witness :
  0 <= smooth_max (1 / 4) 50 - Rmax (1 - 1 / 4) (1 / 4) <= ln 2 / 50 /\
  smooth_max (1 / 2) 50 - Rmax (1 - 1 / 2) (1 / 2) = ln 2 / 50.
Proof.
  apply (smooth_maximum_error_bound (1 / 4) 50). lra.
Defined.

End SmoothMaximumError.

(** ** confidence_trajectories: the trajectories never turn back *)

Lemma sum_app_single (L : list Q) (c : Q) : np.sum (L ++ [c]) = np.sum L + c.
Proof.
  unfold np.sum. now rewrite fold_left_app.
Qed.

Lemma sum_upper (l : list Q) (b : Q) :
  Forall (fun x => x <= b) l -> np.sum l <= of_nat (length l) * b.
Proof.
  induction 1 as [|x r Hx _ IH].
  - unfold np.sum. cbn [fold_left length]. change (of_nat 0) with 0. Lqa.lra.
  - rewrite sum_cons. cbn [length]. rewrite of_nat_S. Lqa.lra.
Qed.

(** In a sorted array a cumulative mean is not above the next one. *)
Lemma cummean_step (L : list Q) (c : Q) (X : list Q) :
  L <> [] ->
  StronglySorted Qle (L ++ c :: X) ->
  exists a b,
    nth_error (cummean (L ++ c :: X)) (Nat.pred (length L)) = Some (Fin a) /\
    nth_error (cummean (L ++ c :: X)) (length L) = Some (Fin b) /\
    a <= b.
Proof.
  intros Hne Hs.
  destruct (exists_last Hne) as (A & c0 & HL).
  pose proof (cummean_nth L c X) as Hb.
  assert (Ha : nth_error (cummean (L ++ c :: X)) (Nat.pred (length L))
               = Some (Fin (np.sum L / of_nat (length L)))).
  { rewrite HL at 1 2. rewrite <- app_assoc. cbn [app].
    rewrite length_app. cbn [length]. rewrite Nat.add_1_r. cbn [Nat.pred].
    rewrite cummean_nth. rewrite <- HL. do 4 f_equal.
    rewrite HL, length_app. simpl. lia. }
  do 2 eexists. split; [exact Ha|]. split; [exact Hb|].
  rewrite sum_app_single.
  assert (Hn : 0 < of_nat (length L)).
  { apply of_nat_pos. destruct L; [congruence | simpl; lia]. }
  assert (Hn1 : 0 < of_nat (S (length L))) by (apply of_nat_pos; lia).
  assert (Hle : np.sum L / of_nat (length L) <= c).
  { apply StronglySorted_app_head in Hs.
    apply Qle_shift_div_r; [exact Hn|]. rewrite Qmult_comm.
    apply sum_upper. exact Hs. }
  apply Qle_shift_div_l; [exact Hn1|].
  rewrite of_nat_S.
  setoid_replace (np.sum L / of_nat (length L) * (of_nat (length L) + 1))
    with (np.sum L + np.sum L / of_nat (length L)).
  - apply Qplus_le_r. exact Hle.
  - field. intros E. rewrite E in Hn. now apply Qlt_irrefl in Hn.
Qed.

Lemma cummean_finite (conf : list Q) (k : nat) (v : float64) :
  nth_error (cummean conf) k = Some v -> exists q, v = Fin q.
Proof.
  intros Hv.
  assert (Hlt : (k < length conf)%nat).
  { rewrite <- cummean_length. apply nth_error_Some. congruence. }
  destruct (nth_error conf k) as [c|] eqn:Ec;
    [|apply nth_error_None in Ec; lia].
  destruct (nth_error_split _ _ Ec) as (A & X & -> & <-).
  rewrite cummean_nth in Hv. injection Hv as <-. eauto.
Qed.

Lemma cummean_monotone (conf : list Q) :
  StronglySorted Qle conf ->
  forall d k a b,
    nth_error (cummean conf) k = Some (Fin a) ->
    nth_error (cummean conf) (k + d) = Some (Fin b) ->
    a <= b.
Proof.
  intros Hs. induction d as [|d IH]; intros k a b Ha Hb.
  - rewrite Nat.add_0_r, Ha in Hb. injection Hb as <-. apply Qle_refl.
  - assert (Hlt : (k + S d < length conf)%nat).
    { rewrite <- cummean_length. apply nth_error_Some. congruence. }
    destruct (nth_error conf (k + S d)) as [c|] eqn:Ec;
      [|apply nth_error_None in Ec; lia].
    destruct (nth_error_split _ _ Ec) as (L & X & Hdec & HlenL).
    assert (HL : L <> []) by (intros ->; simpl in HlenL; lia).
    rewrite Hdec in Hs.
    destruct (cummean_step L c X HL Hs) as (a' & b' & Ha' & Hb' & Hab).
    rewrite <- Hdec, HlenL in Ha', Hb'.
    replace (Nat.pred (k + S d)) with (k + d)%nat in Ha' by lia.
    rewrite Hb in Hb'. injection Hb' as <-.
    apply Qle_trans with a'; [|exact Hab].
    now apply (IH k).
Qed.

Lemma filter_length_mono {A : Type} (f g : A -> bool) (l : list A) :
  (forall x, f x = true -> g x = true) ->
  (length (filter f l) <= length (filter g l))%nat.
Proof.
  intros H. induction l as [|x l IH]; simpl; [lia|].
  destruct (f x) eqn:E.
  - rewrite (H x E). simpl. lia.
  - destruct (g x); simpl; lia.
Qed.

(** At a threshold not below the smallest confidence of a sorted array the
    helper counts the confidences strictly below the largest confidence
    not above the threshold. *)
Lemma index_counts_below (conf : list Q) (t : Q) (k : nat) (mn : Q) :
  StronglySorted Qle conf ->
  np.min conf = Ok mn -> mn <= t ->
  index_of_max_element_below_thresh conf t = Ok k ->
  exists m, np.max (filter (fun e => Qle_bool e t) conf) = Ok m /\
            In m conf /\ m <= t /\
            k = length (filter (fun e => Qlt_bool e m) conf).
Proof.
  intros Hs Hmin Hle Hk.
  unfold index_of_max_element_below_thresh in Hk. rewrite Hmin in Hk.
  cbn [bind] in Hk.
  assert (E : Qlt_bool t mn = false) by now apply Qlt_bool_false_iff.
  rewrite E in Hk.
  destruct (argmax_Ok_max _ _ Hk) as [m Hm].
  destruct (argmax_split _ _ _ Hk Hm) as (A & B & Heq & Hlen & HA & HB).
  pose proof (sorted_filter_prefix t conf Hs) as Hconf.
  rewrite Heq, <- app_assoc in Hconf. cbn [app] in Hconf.
  assert (Htail : Forall (fun x => m <= x)
                    (B ++ filter (fun e => Qlt_bool t e) conf)).
  { apply (StronglySorted_app_tail A). now rewrite <- Hconf. }
  assert (Hsel : In m (filter (fun e => Qle_bool e t) conf)).
  { rewrite Heq. apply in_elt. }
  apply filter_In in Hsel. destruct Hsel as [Hin Hmt].
  exists m. split; [exact Hm|]. split; [exact Hin|].
  split; [now apply Qle_bool_iff|].
  rewrite Hconf at 1. rewrite filter_app, filter_all, filter_none.
  - rewrite app_nil_r. now symmetry.
  - constructor; [apply Qlt_bool_false_iff, Qle_refl|].
    eapply Forall_impl; [|exact Htail]. simpl. intros x Hx.
    now apply Qlt_bool_false_iff.
  - eapply Forall_impl; [|exact HA]. simpl. intros x Hx. now apply Qlt_bool_iff.
Qed.

Lemma index_monotone (conf : list Q) (t t' : Q) (k k' : nat) :
  StronglySorted Qle conf -> t <= t' ->
  index_of_max_element_below_thresh conf t = Ok k ->
  index_of_max_element_below_thresh conf t' = Ok k' ->
  (k <= k')%nat.
Proof.
  intros Hs Htt Hk Hk'.
  destruct (np.min conf) as [mn|e] eqn:Hmin.
  2:{ unfold index_of_max_element_below_thresh in Hk. rewrite Hmin in Hk.
      discriminate. }
  destruct (Qlt_le_dec t mn) as [Hlt|Hle].
  - unfold index_of_max_element_below_thresh in Hk. rewrite Hmin in Hk.
    cbn [bind] in Hk. apply Qlt_bool_iff in Hlt. rewrite Hlt in Hk.
    injection Hk as <-. lia.
  - destruct (index_counts_below _ _ _ _ Hs Hmin Hle Hk) as (m & _ & Hin & Hmt & ->).
    destruct (index_counts_below _ _ _ _ Hs Hmin (Qle_trans _ _ _ Hle Htt) Hk')
      as (m' & Hm' & _ & _ & ->).
    apply filter_length_mono. intros x Hx.
    apply Qlt_bool_iff in Hx. apply Qlt_bool_iff.
    apply Qlt_le_trans with m; [exact Hx|].
    apply max_greatest in Hm'. destruct Hm' as [_ Hall].
    rewrite Forall_forall in Hall. apply Hall.
    apply filter_In. split; [exact Hin|].
    apply Qle_bool_iff. now apply Qle_trans with t.
Qed.

Lemma linspace_nondecreasing (a b : Q) (n i j : nat) :
  a <= b -> (i <= j < n)%nat ->
  nth i (np.linspace a b n) 0 <= nth j (np.linspace a b n) 0.
Proof.
  intros Hab Hij.
  destruct n as [|[|d]]; [lia | |].
  - assert (i = 0%nat) by lia. assert (j = 0%nat) by lia. subst. apply Qle_refl.
  - rewrite !linspace_nth by lia.
    assert (Hd : 0 < of_nat (S d)) by (apply of_nat_pos; lia).
    assert (Hle : of_nat i <= of_nat j).
    { unfold of_nat. rewrite <- Zle_Qle. lia. }
    apply Qplus_le_r. unfold Qdiv.
    apply Qmult_le_compat_r; [|apply Qlt_le_weak; now apply Qinv_lt_0_compat].
    apply Qmult_le_compat_r; [exact Hle|].
    unfold Qminus. now rewrite <- Qle_minus_iff.
Qed.

Lemma trajectory_nondecreasing (conf thresholds : list Q) max_els avg :
  StronglySorted Qle conf ->
  (forall i j t t', (i <= j)%nat -> nth_error thresholds i = Some t ->
                    nth_error thresholds j = Some t' -> t <= t') ->
  mapM (index_of_max_element_below_thresh conf) thresholds = Ok max_els ->
  np.take (cummean conf) max_els = Ok avg ->
  nondecreasing_values avg.
Proof.
  intros Hs Hts Hm Ht i j a b Hij Ha Hb.
  assert (Hlen : length avg = length thresholds).
  { unfold np.take in Ht. rewrite (mapM_Ok_length _ _ _ Ht).
    exact (mapM_Ok_length _ _ _ Hm). }
  destruct (nth_error thresholds i) as [t|] eqn:Ei.
  2:{ apply nth_error_None in Ei.
      assert (nth_error avg i <> None) by congruence.
      apply nth_error_Some in H. lia. }
  destruct (nth_error thresholds j) as [t'|] eqn:Ej.
  2:{ apply nth_error_None in Ej.
      assert (nth_error avg j <> None) by congruence.
      apply nth_error_Some in H. lia. }
  destruct (trajectory_entry _ _ _ _ _ _ Hm Ht Ei) as (k & v & Hk & _ & Hv & Hav).
  destruct (trajectory_entry _ _ _ _ _ _ Hm Ht Ej) as (k' & v' & Hk' & _ & Hv' & Hav').
  rewrite Ha in Hav. injection Hav as <-.
  rewrite Hb in Hav'. injection Hav' as <-.
  pose proof (index_monotone _ _ _ _ _ Hs (Hts _ _ _ _ Hij Ei Ej) Hk Hk') as Hkk.
  apply (cummean_monotone conf Hs (k' - k) k); [exact Hv|].
  now replace (k + (k' - k))%nat with k' by lia.
Qed.

(** X15.  The trajectories never turn back: along the threshold grid the
    average confidence of the correct predictions and the average
    confidence of the false predictions never decrease. *)
Theorem trajectories_never_decrease
    y y_pred p_pred n_classes n_thresh_steps r :
  confidence_trajectories y y_pred p_pred n_classes n_thresh_steps = Ok r ->
  nondecreasing_values (ct_avg_conf_correct r) /\
  nondecreasing_values (ct_avg_conf_false r).
Proof.
  intros H.
  apply confidence_trajectories_Ok in H.
  destruct H as (pc & pm & sc & sf & floor & _ & _ & _ & _ & Hcc & Hcf & Hfl & _ & Hth
                 & Hmc & Hmf & Hac & Haf).
  assert (Hts : forall i j t t', (i <= j)%nat ->
                  nth_error (ct_conf_thresholds r) i = Some t ->
                  nth_error (ct_conf_thresholds r) j = Some t' -> t <= t').
  { intros i j t t' Hij Hi Hj. rewrite Hth in Hi, Hj.
    assert (Hjn : (j < n_thresh_steps)%nat).
    { rewrite <- (linspace_length floor 1 n_thresh_steps).
      apply nth_error_Some. congruence. }
    apply (nth_error_nth _ _ 0) in Hi. apply (nth_error_nth _ _ 0) in Hj.
    rewrite <- Hi, <- Hj. apply linspace_nondecreasing; [|lia].
    pose proof (truediv_Ok_pos _ _ Hfl) as Hn.
    apply truediv_Ok in Hfl. destruct Hfl as [-> _].
    now apply inverse_of_nat_bounds. }
  split.
  - apply (trajectory_nondecreasing (ct_conf_correct r) (ct_conf_thresholds r)
             (ct_max_els_conf_correct r)); auto.
    rewrite Hcc. apply sort_sorted.
  - apply (trajectory_nondecreasing (ct_conf_false r) (ct_conf_thresholds r)
             (ct_max_els_conf_false r)); auto.
    rewrite Hcf. apply sort_sorted.
Qed.

Lemma trajectories_never_decrease_witness :
  exists r a b,
    confidence_trajectories [0; 0; 0; 1]%Z [0; 0; 0; 0]%Z
      [[6 # 10; 4 # 10]; [8 # 10; 2 # 10]; [9 # 10; 1 # 10]; [7 # 10; 3 # 10]]
      None 5 = Ok r /\
    nth_error (ct_avg_conf_correct r) 1 = Some (Fin a) /\
    nth_error (ct_avg_conf_correct r) 4 = Some (Fin b) /\
    a <= b.
Proof.
  destruct (confidence_trajectories [0; 0; 0; 1]%Z [0; 0; 0; 0]%Z
      [[6 # 10; 4 # 10]; [8 # 10; 2 # 10]; [9 # 10; 1 # 10]; [7 # 10; 3 # 10]]
      None 5) as [r|e] eqn:E; [|vm_compute in E; discriminate].
  destruct (trajectories_never_decrease _ _ _ _ _ _ E) as [Hc _].
  assert (Hr := E). vm_compute in Hr. injection Hr as Hr.
  destruct (nth_error (ct_avg_conf_correct r) 1) as [[a| | |]|] eqn:E1;
    try (rewrite <- Hr in E1; discriminate).
  destruct (nth_error (ct_avg_conf_correct r) 4) as [[b| | |]|] eqn:E4;
    try (rewrite <- Hr in E4; discriminate).
  exists r, a, b. repeat split; auto.
  apply (Hc 1%nat 4%nat); auto.
Defined.
